(** * Pyramidal Lucas-Kanade optical flow (src/lucas_kanade.c)

    A shallow embedding of [opticFlowLK] and the properties of its
    pyramid traversal, point bookkeeping and Gauss-Newton refinement.

    Conventions of the embedding.
    - C integers are values in [Z]; every narrowing or fixed-width
      operation is written out with [uwrap] / [swrap] (two's complement
      wrap-around, 32-bit [int]).
    - A division whose divisor is zero has no value: the functions return
      [option], and [None] stands for an execution without defined result.
    - The image routines ([pyramid_build], [image_subpixel_window],
      [image_gradients], [image_calculate_g], [image_difference],
      [image_multiply]) live in other files; they are the members of the
      class [ImageLib].
    - The header that declares [point_t], [flow_t] and [image_t] is not
      part of the sources at hand, so the widths of their integer fields
      are a parameter ([header]). *)

From Stdlib Require Import ZArith Lia Bool.
From stdpp Require Import base option list.

Local Open Scope Z_scope.

(** ** Fixed-width integers *)

Definition uwrap (bits z : Z) : Z := z mod 2 ^ bits.

Definition swrap (bits z : Z) : Z :=
  (z + 2 ^ (bits - 1)) mod 2 ^ bits - 2 ^ (bits - 1).

Definition u8 : Z -> Z := uwrap 8.
Definition u16 : Z -> Z := uwrap 16.
Definition u32 : Z -> Z := uwrap 32.
Definition s32 : Z -> Z := swrap 32.
Definition s64 : Z -> Z := swrap 64.

(** C division: truncation toward zero, no value for a zero divisor. *)
Definition c_div (a b : Z) : option Z :=
  if b =? 0 then None else Some (Z.quot a b).

(** [abs] of <stdlib.h> on [int]. *)
Definition c_abs (a : Z) : Z := s32 (Z.abs a).

(** ** The types of the missing header *)

Inductive width := W16 | W32.

Definition bits (k : width) : Z :=
  match k with W16 => 16 | W32 => 32 end.

(** [coord_w]: width of the unsigned fields [x], [y] of [point_t];
    [flow_w]: width of the signed fields [flow_x], [flow_y] of [flow_t];
    [dim_w]: width of the unsigned fields [w], [h] of [image_t]. *)
Record header := mk_header { coord_w : width; flow_w : width; dim_w : width }.

(** An operand of a 16-bit type is promoted to [int]; a 32-bit unsigned
    operand makes the whole operation unsigned. *)
Definition int_promoted (T : header) : bool :=
  match coord_w T, dim_w T with
  | W16, W16 => true
  | _, _ => false
  end.

(** [struct point_t { x; y }] *)
Record point_t := mk_point { p_x : Z; p_y : Z }.

(** [struct flow_t { pos; flow_x; flow_y }] *)
Record flow_t := mk_flow { pos : point_t; flow_x : Z; flow_y : Z }.

(** ** The image library used by the tracker *)

Class ImageLib := {
  image_t : Type;
  img_w : image_t -> Z;
  img_h : image_t -> Z;
  (** [pyramid_build img levels k] is entry [k] of the pyramid array. *)
  pyramid_build : image_t -> Z -> nat -> image_t;
  (** [image_subpixel_window input size center subpixel_factor]: the
      [size] x [size] output window. *)
  image_subpixel_window : image_t -> Z -> point_t -> Z -> image_t;
  (** [image_gradients window] gives [(window_DX, window_DY)]. *)
  image_gradients : image_t -> image_t * image_t;
  (** [image_calculate_g dx dy] gives [(G[0], G[1], G[2], G[3])]. *)
  image_calculate_g : image_t -> image_t -> Z * Z * Z * Z;
  (** [image_difference a b] gives the returned error and the difference
      image. *)
  image_difference : image_t -> image_t -> Z * image_t;
  image_multiply : image_t -> image_t -> Z
}.

(** The arguments of one call, apart from the point array. *)
Record call `{ImageLib} := mk_call {
  new_img : image_t;
  old_img : image_t;
  half_window_size : Z;   (* uint16_t *)
  subpixel_factor : Z;    (* uint32_t *)
  max_iterations : Z;     (* uint8_t *)
  step_threshold : Z;     (* uint8_t *)
  max_points : Z;         (* uint16_t *)
  pyramid_level : Z       (* uint8_t *)
}.

(** Why a point leaves the active set, and how the refinement loop ends. *)
Inductive reject_reason := OutOfROI | LowDeterminant | HighResidual.

Inductive loop_exit :=
| Converged
| IterationsExhausted
| Rejected (r : reject_reason).

(** What one pass through the body of the refinement loop does. *)
Inductive iter_result :=
| IterReject (r : reject_reason)
| IterStep (v' : flow_t) (step_x step_y : Z).

(** The loop variables of the point loop. *)
Record state := mk_state {
  vectors : list flow_t;
  new_p : Z;
  points_cnt : Z
}.

(** The result of the refinement loop: the value of [tracked], the
    contents of [vectors[new_p]], the number of loop bodies entered and
    the exit taken. *)
Record refine_result := mk_refine {
  tracked : bool;
  vec : flow_t;
  iterations : nat;
  exit_by : loop_exit
}.

(** [uint8_t exp = 1; for (k = 0; k != pyramid_level; k++) exp *= 2;] *)
Fixpoint exp_loop (k : nat) (exp : Z) : Z :=
  match k with
  | O => exp
  | S k' => exp_loop k' (u8 (exp * 2))
  end.

Definition exp_of_level (pyramid_level : Z) : Z :=
  exp_loop (Z.to_nat pyramid_level) 1.

Section Model.
Context `{IL : ImageLib}.
Variable T : header.
Variable c : call.

Definition ucoord (z : Z) : Z := uwrap (bits (coord_w T)) z.
Definition sflow (z : Z) : Z := swrap (bits (flow_w T)) z.

Definition pyramid_old : nat -> image_t :=
  pyramid_build (old_img c) (pyramid_level c).
Definition pyramid_new : nat -> image_t :=
  pyramid_build (new_img c) (pyramid_level c).

Definition patch_size : Z := u16 (2 * half_window_size c + 1).
Definition error_threshold : Z :=
  u32 (s32 (s32 (25 * 25) * s32 (patch_size * patch_size))).
Definition padded_patch_size : Z := u16 (patch_size + 2).

Definition exp : Z := exp_of_level (pyramid_level c).

(** [(a - b) < half_window_size] for an image dimension [a] and a
    point coordinate [b]. *)
Definition dim_minus_coord_lt (a b : Z) : bool :=
  if int_promoted T then s32 (a - b) <? half_window_size c
  else u32 (a - b) <? half_window_size c.

(** The test of lines 131-132 on an input point. *)
Definition input_outside_roi (img : image_t) (pt : point_t) : bool :=
  (p_x pt <? half_window_size c)
  || dim_minus_coord_lt (img_w img) (p_x pt)
  || (p_y pt <? half_window_size c)
  || dim_minus_coord_lt (img_h img) (p_y pt).

(** The test of lines 179-180 on a candidate point; the quotients are
    unsigned 32-bit values. *)
Definition candidate_outside_roi (img : image_t) (new_point : point_t)
  : option bool :=
  qx ← c_div (p_x new_point) (subpixel_factor c);
  qy ← c_div (p_y new_point) (subpixel_factor c);
  Some ((qx <? half_window_size c)
        || (u32 (img_w img - qx) <? half_window_size c)
        || (qy <? half_window_size c)
        || (u32 (img_h img - qy) <? half_window_size c)).

(** [error > error_threshold && it > max_iterations / 2] *)
Definition residual_too_large (error it : Z) : bool :=
  (error_threshold <? error) && (max_iterations c / 2 <? it).

(** [(abs(step_x) + abs(step_y)) < step_threshold] *)
Definition converged (step_x step_y : Z) : bool :=
  s32 (c_abs step_x + c_abs step_y) <? step_threshold c.

(** [Det = ((int64_t) G[0] * G[3] - G[1] * G[2]) / subpixel_factor],
    stored in an [int32_t]. *)
Definition determinant (G : Z * Z * Z * Z) : option Z :=
  let '(g0, g1, g2, g3) := G in
  q ← c_div (s64 (s64 (g0 * g3) - s32 (g1 * g2))) (subpixel_factor c);
  Some (s32 q).

(** What is computed once per point and level (steps (1)-(3)). *)
Record lin := mk_lin {
  window_I : image_t;
  window_DX : image_t;
  window_DY : image_t;
  G : Z * Z * Z * Z;
  Det : Z
}.

Definition linearize (LVL : nat) (v : flow_t) : option lin :=
  let wI := image_subpixel_window (pyramid_old LVL) padded_patch_size
              (pos v) (subpixel_factor c) in
  let '(dx, dy) := image_gradients wI in
  let '(g0, g1, g2, g3) := image_calculate_g dx dy in
  let g := (s32 g0, s32 g1, s32 g2, s32 g3) in
  d ← determinant g;
  Some (mk_lin wI dx dy g d).

(** The mismatch vector entry [image_multiply(diff, grad) / 255]. *)
Definition mismatch (window_diff grad : image_t) : Z :=
  s32 (Z.quot (s32 (image_multiply window_diff grad)) 255).

(** Line 176: the candidate [new_point], stored in a [point_t]. *)
Definition candidate (v : flow_t) : point_t :=
  mk_point (ucoord (p_x (pos v) + flow_x v))
           (ucoord (p_y (pos v) + flow_y v)).

(** Steps [a] and [b]: the window of the new image at the candidate and
    its difference with [window_I]. *)
Definition compare_windows (LVL : nat) (L : lin) (new_point : point_t)
  : Z * image_t :=
  image_difference (window_I L)
    (image_subpixel_window (pyramid_new LVL) patch_size new_point
       (subpixel_factor c)).

(** Steps [c] and [d] (lines 198-206): the mismatch vector, the step and
    the update of the flow. *)
Definition solve_step (L : lin) (window_diff : image_t) (v : flow_t)
  : option iter_result :=
  let b_x := mismatch window_diff (window_DX L) in
  let b_y := mismatch window_diff (window_DY L) in
  let '(g0, g1, g2, g3) := G L in
  qx ← c_div (s32 (s32 (g3 * b_x) - s32 (g1 * b_y))) (Det L);
  qy ← c_div (s32 (s32 (g0 * b_y) - s32 (g2 * b_x))) (Det L);
  let step_x := s32 qx in
  let step_y := s32 qy in
  Some (IterStep (mk_flow (pos v)
                          (sflow (s32 (flow_x v + step_x)))
                          (sflow (s32 (flow_y v + step_y))))
                 step_x step_y).

(** The body of the loop of line 175 at iteration [it]. *)
Definition lk_step (LVL : nat) (L : lin) (it : Z) (v : flow_t)
  : option iter_result :=
  let new_point := candidate v in
  out ← candidate_outside_roi (pyramid_old LVL) new_point;
  if out : bool then Some (IterReject OutOfROI)
  else
    let '(error, window_diff) := compare_windows LVL L new_point in
    if residual_too_large (u32 error) it then Some (IterReject HighResidual)
    else solve_step L window_diff v.

(** [for (it = 0; it < max_iterations; it++)], with [fuel] the number
    of iterations left. *)
Fixpoint lk_iterate (LVL : nat) (L : lin) (fuel : nat) (it : Z) (v : flow_t)
  : option refine_result :=
  match fuel with
  | O => Some (mk_refine true v 0 IterationsExhausted)
  | S fuel' =>
      r ← lk_step LVL L it v;
      match r with
      | IterReject why => Some (mk_refine false v 1 (Rejected why))
      | IterStep v' step_x step_y =>
          if converged step_x step_y
          then Some (mk_refine true v' 1 Converged)
          else
            res ← lk_iterate LVL L fuel' (it + 1) v';
            Some (mk_refine (tracked res) (vec res)
                            (S (iterations res)) (exit_by res))
      end
  end.

(** Lines 128-150: what is stored in [vectors[new_p]] before the
    windows are taken; [Some None] is the [continue] of line 135. *)
Definition seed_point (LVL : nat) (pt : point_t) (st : state)
  : option (option flow_t) :=
  if Z.of_nat LVL =? pyramid_level c then
    if input_outside_roi (pyramid_old LVL) pt then Some None
    else
      (* [vectors[new_p]] is a slot of the allocated array *)
      _ ← vectors st !! Z.to_nat (new_p st);
      px ← c_div (u32 (p_x pt * subpixel_factor c)) exp;
      py ← c_div (u32 (p_y pt * subpixel_factor c)) exp;
      Some (Some (mk_flow (mk_point (ucoord px) (ucoord py)) 0 0))
  else
    cur ← vectors st !! Z.to_nat (new_p st);
    Some (Some (mk_flow (mk_point (ucoord (2 * p_x (pos cur)))
                                  (ucoord (2 * p_y (pos cur))))
                        (sflow (s32 (2 * flow_x cur)))
                        (sflow (s32 (2 * flow_y cur))))).

(** The body of the point loop (lines 125-219). *)
Definition track_point (LVL : nat) (pt : point_t) (st : state)
  : option state :=
  s ← seed_point LVL pt st;
  match s with
  | None => Some st
  | Some v0 =>
      L ← linearize LVL v0;
      if Det L <? 1
      then Some (mk_state (<[Z.to_nat (new_p st) := v0]> (vectors st))
                          (new_p st) (points_cnt st))
      else
        r ← lk_iterate LVL L (Z.to_nat (max_iterations c)) 0 v0;
        let vs := <[Z.to_nat (new_p st) := vec r]> (vectors st) in
        if tracked r
        then Some (mk_state vs (u16 (new_p st + 1)) (u16 (points_cnt st + 1)))
        else Some (mk_state vs (new_p st) (points_cnt st))
  end.

(** The point loop over [points[0]], ..., in input order. *)
Fixpoint point_loop (LVL : nat) (pts : list point_t) (st : state)
  : option state :=
  match pts with
  | [] => Some st
  | pt :: rest =>
      st' ← track_point LVL pt st;
      point_loop LVL rest st'
  end.

(** One pyramid level: [i < max_points && i < points_orig]. *)
Definition level (LVL : nat) (points : list point_t)
           (vs : list flow_t) (cnt : Z) : option (list flow_t * Z) :=
  let points_orig := cnt in
  let n := Z.to_nat (Z.min (max_points c) points_orig) in
  st ← point_loop LVL (take n points) (mk_state vs 0 0);
  Some (vectors st, points_cnt st).

(** [for (LVL = pyramid_level; LVL != -1; LVL--)] *)
Fixpoint level_loop (LVL : nat) (points : list point_t)
         (vs : list flow_t) (cnt : Z) : option (list flow_t * Z) :=
  r ← level LVL points vs cnt;
  match LVL with
  | O => Some r
  | S l => level_loop l points r.1 r.2
  end.

(** The call: [points_cnt] is the length of [points], [junk] the
    contents of the freshly allocated [vectors].  The result is the
    array and the final [*points_cnt].  [LVL] is an [int8_t]: with
    [pyramid_level] above 127 it starts negative and indexes the
    pyramids before their first element, which the embedding does not
    describe.  The definition gives these calls no result; it follows
    the code for [pyramid_level] up to 127, and the properties that
    conclude that a call has no result are stated within that range. *)
Definition opticFlowLK (points : list point_t) (junk : flow_t)
  : option (list flow_t * Z) :=
  if 127 <? pyramid_level c then None
  else level_loop (Z.to_nat (pyramid_level c)) points
         (replicate (Z.to_nat (max_points c)) junk)
         (Z.of_nat (length points)).

End Model.

(** ** A small image library for the worked examples

    An image is described by its size, the pyramid level it was taken
    from and the centre it was sampled at.  [g_of lvl cx] is the G-matrix
    of the window of level [lvl] centred at abscissa [cx], [m_of lvl cx]
    the value of both products of [image_multiply] for the candidate
    window centred at [cx], and [err_of lvl cx] the error reported by
    [image_difference] for it. *)

Record toy_image := mk_toy {
  t_w : Z; t_h : Z; t_lvl : Z; t_cx : Z; t_cy : Z
}.

Definition toy_lib (g_of : Z -> Z -> Z * Z * Z * Z) (m_of err_of : Z -> Z -> Z)
  : ImageLib :=
  {| image_t := toy_image;
     img_w := t_w;
     img_h := t_h;
     pyramid_build := fun img _ k =>
       mk_toy (t_w img / 2 ^ Z.of_nat k) (t_h img / 2 ^ Z.of_nat k)
              (Z.of_nat k) 0 0;
     image_subpixel_window := fun input size center _ =>
       mk_toy size size (t_lvl input) (p_x center) (p_y center);
     image_gradients := fun w => (w, w);
     image_calculate_g := fun dx _ => g_of (t_lvl dx) (t_cx dx);
     image_difference := fun _ b => (err_of (t_lvl b) (t_cx b), b);
     image_multiply := fun diff _ => m_of (t_lvl diff) (t_cx diff) |}.

(** The header with 16-bit coordinates, flows and image dimensions, and
    the one with 32-bit coordinates and flows. *)
Definition T16 : header := mk_header W16 W16 W16.
Definition T32 : header := mk_header W32 W32 W16.

Definition frame100 : toy_image := mk_toy 100 100 0 0 0.
Definition zero_flow : flow_t := mk_flow (mk_point 0 0) 0 0.

(** ** Statements of the specification, in its own words *)

(** "Det = (G00*G11 - G01*G10) / subpixelFactor" over the integers. *)
Definition exact_scaled_determinant (G : Z * Z * Z * Z) (subpixel_factor : Z)
  : Z :=
  let '(g00, g01, g10, g11) := G in
  Z.quot (g00 * g11 - g01 * g10) subpixel_factor.

(** "At least half of maxIterations have elapsed" when [it] iterations
    are behind the current one. *)
Definition at_least_half_elapsed (max_iterations it : Z) : Prop :=
  max_iterations <= 2 * it.

(** A position (in pixels) "closer than halfWindowSize to any border" of
    a [w] x [h] image. *)
Definition closer_to_border (w h half_window_size px py : Z) : Prop :=
  px < half_window_size \/ w - px < half_window_size
  \/ py < half_window_size \/ h - py < half_window_size.

(** A position with two even coordinates. *)
Definition even_position (p : point_t) : Prop :=
  Z.even (p_x p) = true /\ Z.even (p_y p) = true.

(** Two states of the point loop with the same counters, arrays of the
    same length and the same contents at the indices in [P]. *)
Definition same_upto (P : nat -> Prop) (st1 st2 : state) : Prop :=
  new_p st1 = new_p st2
  /\ points_cnt st1 = points_cnt st2
  /\ length (vectors st1) = length (vectors st2)
  /\ forall j : nat, P j -> vectors st1 !! j = vectors st2 !! j.

(** Two results with the same count and the same vectors below it. *)
Definition same_prefix (r1 r2 : list flow_t * Z) : Prop :=
  r1.2 = r2.2
  /\ length r1.1 = length r2.1
  /\ forall j : nat, Z.of_nat j < r1.2 -> r1.1 !! j = r2.1 !! j.

(** Both without result, or both with related results. *)
Definition same_option {A : Type} (R : A -> A -> Prop) (o1 o2 : option A)
  : Prop :=
  match o1, o2 with
  | Some a, Some b => R a b
  | None, None => True
  | _, _ => False
  end.

(** The range of a signed 32-bit integer. *)
Definition in_s32 (z : Z) : Prop := - 2 ^ 31 <= z < 2 ^ 31.

(** ** Calls used in the worked examples *)

Definition g_textured (_ _ : Z) : Z * Z * Z * Z := (10, 0, 0, 10).
Definition zero_of (_ _ : Z) : Z := 0.

(** A well-textured pair of identical frames. *)
Definition lib_still : ImageLib := toy_lib g_textured zero_of zero_of.

Definition call_still : @call lib_still :=
  @mk_call lib_still frame100 frame100 5 10 10 1 10 2.

Definition lin_textured : @lin lib_still :=
  @mk_lin lib_still frame100 frame100 frame100 (10, 0, 0, 10) 10.

(** Two points that survive level 1; at level 0 the window around the
    first one (centre 200 in subpixels) is flat. *)
Definition g_flat_spot (lvl cx : Z) : Z * Z * Z * Z :=
  if (lvl =? 0) && (cx =? 200) then (0, 0, 0, 0) else (10, 0, 0, 10).

Definition lib_flat_spot : ImageLib := toy_lib g_flat_spot zero_of zero_of.

Definition call_flat_spot : @call lib_flat_spot :=
  @mk_call lib_flat_spot frame100 frame100 5 10 10 1 10 1.

Definition points_ab : list point_t := [mk_point 20 20; mk_point 30 30].

Definition estimate_a : flow_t := mk_flow (mk_point 100 100) 0 0.
Definition estimate_b : flow_t := mk_flow (mk_point 150 150) 0 0.

(** A strongly textured window: G = (655360, 0, 0, 65536). *)
Definition g_strong (_ _ : Z) : Z * Z * Z * Z := (655360, 0, 0, 65536).

Definition lib_strong : ImageLib := toy_lib g_strong zero_of zero_of.

Definition call_strong : @call lib_strong :=
  @mk_call lib_strong frame100 frame100 5 10 10 1 1 0.

(** A ramp shifted by six pixels under a point on the right edge of the
    region of interest: G = (47, 0, 0, 47), and the products of the first
    difference image with the gradients are 72600. *)
Definition g_ramp (_ _ : Z) : Z * Z * Z * Z := (47, 0, 0, 47).

Definition m_jump (_ cx : Z) : Z := if cx =? 950 then 72600 else 0.

Definition lib_jump : ImageLib := toy_lib g_ramp m_jump zero_of.

Definition call_jump : @call lib_jump :=
  @mk_call lib_jump frame100 frame100 5 10 10 1 1 0.

Definition lin_jump : @lin lib_jump :=
  @mk_lin lib_jump frame100 frame100 frame100 (47, 0, 0, 47) 220.

(** A candidate window whose difference stays above the threshold. *)
Definition err_large (_ _ : Z) : Z := 100000.

Definition lib_noisy : ImageLib := toy_lib g_textured zero_of err_large.

Definition call_noisy : @call lib_noisy :=
  @mk_call lib_noisy frame100 frame100 5 10 10 1 1 0.

Definition lin_noisy : @lin lib_noisy :=
  @mk_lin lib_noisy frame100 frame100 frame100 (10, 0, 0, 10) 10.

(** A ramp that keeps drifting: every pass finds the products 72600 and
    an error above the threshold. *)
Definition m_drift (_ _ : Z) : Z := 72600.

Definition lib_drift : ImageLib := toy_lib g_ramp m_drift err_large.

Definition call_drift : @call lib_drift :=
  @mk_call lib_drift frame100 frame100 5 10 10 1 1 0.

Definition lin_drift : @lin lib_drift :=
  @mk_lin lib_drift frame100 frame100 frame100 (47, 0, 0, 47) 220.

(** A call with [subpixel_factor = 0]. *)
Definition call_zero_factor : @call lib_still :=
  @mk_call lib_still frame100 frame100 5 0 10 1 10 0.

(** A call with eight pyramid levels above level 0 on 2560 x 2560
    frames (the coarsest image is 10 x 10). *)
Definition frame2560 : toy_image := mk_toy 2560 2560 0 0 0.

Definition call_deep : @call lib_still :=
  @mk_call lib_still frame2560 frame2560 5 10 10 1 10 8.

(** The linearisation of the flat window of [lib_flat_spot]. *)
Definition lin_flat : @lin lib_flat_spot :=
  @mk_lin lib_flat_spot (mk_toy 13 13 0 200 200) (mk_toy 13 13 0 200 200)
    (mk_toy 13 13 0 200 200) (0, 0, 0, 0) 0.

(** ** Runs of the refinement loop *)

Section Passes.
Context `{IL : ImageLib}.
Variable T : header.
Variable c : call.

(** [passes LVL L it v k v']: the [k] passes of the loop of line 175 that
    start at iteration [it] on the vector [v] are not rejected, each
    computes a step with [step_threshold <= |step_x| + |step_y|] (a sum
    that fits an [int]), and together they turn [v] into [v']. *)
Inductive passes (LVL : nat) (L : lin)
  : Z -> flow_t -> nat -> flow_t -> Prop :=
| passes_done (it : Z) (v : flow_t) : passes LVL L it v 0 v
| passes_next (it : Z) (v v' v'' : flow_t) (sx sy : Z) (k : nat) :
    lk_step T c LVL L it v = Some (IterStep v' sx sy) ->
    step_threshold c <= Z.abs sx + Z.abs sy < 2 ^ 31 ->
    passes LVL L (it + 1) v' k v'' ->
    passes LVL L it v (S k) v''.

End Passes.

(** A ramp that keeps drifting by 60 subpixels a pass, with windows
    that stay below the error threshold, and three iterations allowed. *)
Definition lib_ramp : ImageLib := toy_lib g_ramp m_drift zero_of.

Definition call_ramp : @call lib_ramp :=
  @mk_call lib_ramp frame100 frame100 5 10 3 1 1 0.

Definition lin_ramp : @lin lib_ramp :=
  @mk_lin lib_ramp frame100 frame100 frame100 (47, 0, 0, 47) 220.

(** * Properties *)

(** ** Fixed-width arithmetic *)

Lemma uwrap_small (b z : Z) : 0 <= z < 2 ^ b -> uwrap b z = z.
Proof. intros Hz. unfold uwrap. apply Z.mod_small. exact Hz. Qed.

Lemma swrap_small (b z : Z) :
  0 < b -> - 2 ^ (b - 1) <= z < 2 ^ (b - 1) -> swrap b z = z.
Proof.
  intros Hb Hz. unfold swrap.
  assert (Hp : 2 ^ b = 2 * 2 ^ (b - 1)).
  { replace b with (Z.succ (b - 1)) at 1 by lia. apply Z.pow_succ_r. lia. }
  rewrite Z.mod_small; lia.
Qed.

Lemma s32_small (z : Z) : in_s32 z -> s32 z = z.
Proof. intros Hz. apply swrap_small; [lia | exact Hz]. Qed.

Lemma s64_small (z : Z) : - 2 ^ 63 <= z < 2 ^ 63 -> s64 z = z.
Proof. intros Hz. apply swrap_small; [lia | exact Hz]. Qed.

Lemma u32_small (z : Z) : 0 <= z < 2 ^ 32 -> u32 z = z.
Proof. apply uwrap_small. Qed.

Lemma u16_small (z : Z) : 0 <= z < 2 ^ 16 -> u16 z = z.
Proof. apply uwrap_small. Qed.

Lemma u32_s32 (z : Z) : u32 (s32 z) = u32 z.
Proof.
  unfold u32, s32, uwrap, swrap. change (32 - 1) with 31.
  rewrite Zminus_mod_idemp_l.
  f_equal. lia.
Qed.

Lemma s32_range (z : Z) : in_s32 (s32 z).
Proof.
  unfold in_s32, s32, swrap. change (32 - 1) with 31.
  pose proof (Z.mod_pos_bound (z + 2 ^ 31) (2 ^ 32) ltac:(lia)). lia.
Qed.

Lemma c_div_Some (a b : Z) : b <> 0 -> c_div a b = Some (Z.quot a b).
Proof.
  intros Hb. unfold c_div. destruct (Z.eqb_spec b 0); [contradiction | reflexivity].
Qed.

Lemma c_div_zero (a : Z) : c_div a 0 = None.
Proof. reflexivity. Qed.

(** ** The divisor [exp] *)

Lemma exp_loop_pow (k : nat) (e : Z) :
  exp_loop k (u8 e) = u8 (e * 2 ^ Z.of_nat k).
Proof.
  revert e. induction k as [|k IH]; intros e.
  - simpl. rewrite Z.mul_1_r. reflexivity.
  - cbn [exp_loop].
    replace (u8 (u8 e * 2)) with (u8 (e * 2)).
    + rewrite IH. f_equal. rewrite Nat2Z.inj_succ, Z.pow_succ_r by lia. ring.
    + unfold u8, uwrap. rewrite Z.mul_mod_idemp_l by lia. reflexivity.
Qed.

Lemma exp_of_level_mod (pl : Z) : 0 <= pl -> exp_of_level pl = 2 ^ pl mod 256.
Proof.
  intros Hpl. unfold exp_of_level.
  change 1 with (u8 1) at 1. rewrite exp_loop_pow.
  rewrite Z2Nat.id by exact Hpl. unfold u8, uwrap. f_equal. lia.
Qed.

Lemma exp_of_level_small (pl : Z) :
  0 <= pl <= 7 -> exp_of_level pl = 2 ^ pl /\ 0 < exp_of_level pl.
Proof.
  intros Hpl.
  assert (Hc : pl = 0 \/ pl = 1 \/ pl = 2 \/ pl = 3 \/ pl = 4 \/ pl = 5
               \/ pl = 6 \/ pl = 7) by lia.
  repeat (destruct Hc as [-> | Hc]; [split; [reflexivity | reflexivity] |]).
  subst pl. split; reflexivity.
Qed.

Lemma exp_of_level_large (pl : Z) : 8 <= pl -> exp_of_level pl = 0.
Proof.
  intros Hpl. rewrite exp_of_level_mod by lia.
  replace pl with (8 + (pl - 8)) by lia.
  rewrite Z.pow_add_r by lia.
  change (2 ^ 8) with 256. rewrite Z.mul_comm. apply Z.mod_mul. lia.
Qed.

Section Properties.
Context `{IL : ImageLib}.
Variable T : header.
Variable c : call.

Lemma ucoord_small (z : Z) : 0 <= z < 2 ^ bits (coord_w T) -> ucoord T z = z.
Proof. apply uwrap_small. Qed.

Lemma sflow_small (z : Z) :
  - 2 ^ (bits (flow_w T) - 1) <= z < 2 ^ (bits (flow_w T) - 1) ->
  sflow T z = z.
Proof. apply swrap_small. destruct (flow_w T); reflexivity. Qed.

Lemma flow_range_s32 (z : Z) :
  - 2 ^ (bits (flow_w T) - 1) <= z < 2 ^ (bits (flow_w T) - 1) -> in_s32 z.
Proof. unfold in_s32. destruct (flow_w T); simpl; lia. Qed.

(** ** Seeding at the coarsest level *)

Lemma seed_point_coarsest (pt : point_t) (st : state) (cur : flow_t) :
  0 <= pyramid_level c ->
  vectors st !! Z.to_nat (new_p st) = Some cur ->
  input_outside_roi T c (pyramid_old c (Z.to_nat (pyramid_level c))) pt = false ->
  seed_point T c (Z.to_nat (pyramid_level c)) pt st =
    (px ← c_div (u32 (p_x pt * subpixel_factor c)) (exp c);
     py ← c_div (u32 (p_y pt * subpixel_factor c)) (exp c);
     Some (Some (mk_flow (mk_point (ucoord T px) (ucoord T py)) 0 0))).
Proof.
  intros Hpl Hslot Hroi. unfold seed_point.
  rewrite Z2Nat.id by exact Hpl. rewrite Z.eqb_refl, Hroi.
  rewrite Hslot. reflexivity.
Qed.

(** At a finer level the seed is the double of whatever slot [new_p]
    holds. *)
Lemma seed_point_finer (LVL : nat) (pt : point_t) (st : state) (cur : flow_t) :
  Z.of_nat LVL <> pyramid_level c ->
  vectors st !! Z.to_nat (new_p st) = Some cur ->
  seed_point T c LVL pt st =
    Some (Some (mk_flow (mk_point (ucoord T (2 * p_x (pos cur)))
                                  (ucoord T (2 * p_y (pos cur))))
                        (sflow T (s32 (2 * flow_x cur)))
                        (sflow T (s32 (2 * flow_y cur))))).
Proof.
  intros Hl Hslot. unfold seed_point.
  destruct (Z.eqb_spec (Z.of_nat LVL) (pyramid_level c)); [contradiction |].
  rewrite Hslot. reflexivity.
Qed.

(** C10: the divisor [exp] is built by repeated doubling in 8 bits.  Up
    to [pyramid_level = 7] it equals [2 ^ pyramid_level], it is not zero
    and the initialisation of a point that passed the region-of-interest
    test has a value; at [pyramid_level = 8] the divisor has wrapped to 0
    and that initialisation divides by zero. *)
Theorem exp_divisor_wraps_at_eight :
  (0 <= pyramid_level c <= 7 ->
   exp c = 2 ^ pyramid_level c /\ exp c <> 0 /\
   forall (pt : point_t) (st : state) (cur : flow_t),
     vectors st !! Z.to_nat (new_p st) = Some cur ->
     input_outside_roi T c (pyramid_old c (Z.to_nat (pyramid_level c))) pt
     = false ->
     exists v,
       seed_point T c (Z.to_nat (pyramid_level c)) pt st = Some (Some v))
  /\ (pyramid_level c = 8 ->
      exp c = 2 ^ 8 mod 2 ^ 8 /\ exp c = 0 /\
      forall (pt : point_t) (st : state) (cur : flow_t),
        vectors st !! Z.to_nat (new_p st) = Some cur ->
        input_outside_roi T c (pyramid_old c (Z.to_nat (pyramid_level c))) pt
        = false ->
        seed_point T c (Z.to_nat (pyramid_level c)) pt st = None).
Proof.
  split.
  - intros Hpl. destruct (exp_of_level_small (pyramid_level c) Hpl) as [He Hp].
    unfold exp. split; [exact He |]. split; [lia |].
    intros pt st cur Hslot Hroi.
    rewrite (seed_point_coarsest pt st cur) by (lia || assumption).
    unfold exp. rewrite !c_div_Some by lia. cbn [mbind option_bind].
    eexists. reflexivity.
  - intros Hpl.
    assert (He : exp c = 0) by (unfold exp; apply exp_of_level_large; lia).
    split; [rewrite He; reflexivity |]. split; [exact He |].
    intros pt st cur Hslot Hroi.
    rewrite (seed_point_coarsest pt st cur) by (lia || assumption).
    rewrite He. reflexivity.
Qed.

(** C8: at the coarsest level a point that passes the region-of-interest
    test gets the position [coordinate * subpixel_factor / 2 ^ pyramid_level]
    (integer division) and the flow (0, 0), as long as the products fit in
    32 bits and the quotients fit the coordinate fields. *)
Theorem coarsest_level_seed (pt : point_t) (st : state) (cur : flow_t)
  (Hpl : 0 <= pyramid_level c <= 7)
  (Hslot : vectors st !! Z.to_nat (new_p st) = Some cur)
  (Hroi : input_outside_roi T c (pyramid_old c (Z.to_nat (pyramid_level c))) pt
          = false)
  (Hx : 0 <= p_x pt * subpixel_factor c < 2 ^ 32)
  (Hy : 0 <= p_y pt * subpixel_factor c < 2 ^ 32)
  (Hqx : p_x pt * subpixel_factor c / 2 ^ pyramid_level c
         < 2 ^ bits (coord_w T))
  (Hqy : p_y pt * subpixel_factor c / 2 ^ pyramid_level c
         < 2 ^ bits (coord_w T)) :
  seed_point T c (Z.to_nat (pyramid_level c)) pt st =
    Some (Some (mk_flow
                  (mk_point
                     (p_x pt * subpixel_factor c / 2 ^ pyramid_level c)
                     (p_y pt * subpixel_factor c / 2 ^ pyramid_level c))
                  0 0)).
Proof.
  destruct (exp_of_level_small (pyramid_level c) Hpl) as [He Hp].
  rewrite (seed_point_coarsest pt st cur) by (lia || assumption).
  unfold exp. rewrite !c_div_Some by lia. cbn [mbind option_bind].
  rewrite He, !u32_small by assumption.
  assert (H2 : 0 < 2 ^ pyramid_level c) by (apply Z.pow_pos_nonneg; lia).
  rewrite !Z.quot_div_nonneg by lia.
  rewrite !ucoord_small; [reflexivity | |].
  - split; [apply Z.div_pos; lia | exact Hqy].
  - split; [apply Z.div_pos; lia | exact Hqx].
Qed.

(** ** The determinant *)

Lemma determinant_in_range (g0 g1 g2 g3 : Z) :
  subpixel_factor c <> 0 ->
  in_s32 g0 -> in_s32 g3 -> in_s32 (g1 * g2) ->
  in_s32 (exact_scaled_determinant (g0, g1, g2, g3) (subpixel_factor c)) ->
  determinant c (g0, g1, g2, g3) =
    Some (exact_scaled_determinant (g0, g1, g2, g3) (subpixel_factor c)).
Proof.
  unfold in_s32, determinant, exact_scaled_determinant.
  intros Hsf H0 H3 H12 Hq.
  assert (H03 : - 2 ^ 62 <= g0 * g3 <= 2 ^ 62) by nia.
  rewrite (s32_small (g1 * g2)) by exact H12.
  rewrite (s64_small (g0 * g3)) by lia.
  rewrite s64_small by lia.
  rewrite c_div_Some by exact Hsf. cbn [mbind option_bind].
  rewrite s32_small by exact Hq. reflexivity.
Qed.

(** ** One pass through the refinement loop *)

Lemma lk_step_cases (LVL : nat) (L : lin) (it : Z) (v : flow_t) :
  lk_step T c LVL L it v =
    match candidate_outside_roi c (pyramid_old c LVL) (candidate T v) with
    | None => None
    | Some true => Some (IterReject OutOfROI)
    | Some false =>
        if residual_too_large c
             (u32 (compare_windows c LVL L (candidate T v)).1) it
        then Some (IterReject HighResidual)
        else solve_step T L (compare_windows c LVL L (candidate T v)).2 v
    end.
Proof.
  unfold lk_step.
  destruct (candidate_outside_roi c (pyramid_old c LVL) (candidate T v))
    as [[|]|]; cbn [mbind option_bind]; try reflexivity.
  destruct (compare_windows c LVL L (candidate T v)) as [error wd].
  reflexivity.
Qed.

Lemma solve_step_is_step (L : lin) (wd : image_t) (v : flow_t) (r : reject_reason) :
  solve_step T L wd v <> Some (IterReject r).
Proof.
  unfold solve_step, c_div. destruct (G L) as [[[g0 g1] g2] g3].
  destruct (Det L =? 0); cbn [mbind option_bind]; discriminate.
Qed.

Lemma solve_step_total (L : lin) (wd : image_t) (v : flow_t) :
  Det L <> 0 -> exists v' sx sy, solve_step T L wd v = Some (IterStep v' sx sy).
Proof.
  intros Hd. unfold solve_step. destruct (G L) as [[[g0 g1] g2] g3].
  rewrite !c_div_Some by exact Hd. cbn [mbind option_bind].
  eexists _, _, _. reflexivity.
Qed.

Lemma candidate_outside_roi_total (img : image_t) (p : point_t) :
  subpixel_factor c <> 0 -> exists b, candidate_outside_roi c img p = Some b.
Proof.
  intros Hsf. unfold candidate_outside_roi.
  rewrite !c_div_Some by exact Hsf. cbn [mbind option_bind].
  eexists. reflexivity.
Qed.

Lemma lk_step_total (LVL : nat) (L : lin) (it : Z) (v : flow_t) :
  subpixel_factor c <> 0 -> Det L <> 0 ->
  exists r, lk_step T c LVL L it v = Some r.
Proof.
  intros Hsf Hd. rewrite lk_step_cases.
  destruct (candidate_outside_roi_total (pyramid_old c LVL) (candidate T v) Hsf)
    as [[|] ->]; [eexists; reflexivity |].
  destruct (residual_too_large c _ it); [eexists; reflexivity |].
  destruct (solve_step_total L (compare_windows c LVL L (candidate T v)).2 v Hd)
    as (v' & sx & sy & ->).
  eexists. reflexivity.
Qed.

(** Inside the image the test on the candidate is the test of the
    specification. *)
Lemma candidate_outside_roi_within_image (img : image_t) (p : point_t) :
  subpixel_factor c <> 0 ->
  Z.quot (p_x p) (subpixel_factor c) <= img_w img < 2 ^ 32 ->
  Z.quot (p_y p) (subpixel_factor c) <= img_h img < 2 ^ 32 ->
  0 <= Z.quot (p_x p) (subpixel_factor c) ->
  0 <= Z.quot (p_y p) (subpixel_factor c) ->
  exists b,
    candidate_outside_roi c img p = Some b
    /\ (b = true <->
        closer_to_border (img_w img) (img_h img) (half_window_size c)
          (Z.quot (p_x p) (subpixel_factor c))
          (Z.quot (p_y p) (subpixel_factor c))).
Proof.
  intros Hsf Hw Hh Hqx Hqy. unfold candidate_outside_roi.
  rewrite !c_div_Some by exact Hsf. cbn [mbind option_bind].
  eexists. split; [reflexivity |].
  rewrite !u32_small by lia.
  rewrite !orb_true_iff, !Z.ltb_lt. unfold closer_to_border. tauto.
Qed.

(** ** The residual test *)

Lemma patch_size_exact :
  0 <= half_window_size c <= 32767 ->
  patch_size c = 2 * half_window_size c + 1.
Proof. intros Hh. unfold patch_size. apply u16_small. lia. Qed.

Lemma error_threshold_exact :
  0 <= half_window_size c <= 1310 ->
  error_threshold c = 625 * (2 * half_window_size c + 1) ^ 2.
Proof.
  intros Hh. unfold error_threshold. rewrite patch_size_exact by lia.
  set (ps := 2 * half_window_size c + 1).
  assert (Hps : 1 <= ps <= 2621) by (unfold ps; lia).
  assert (Hsq : 1 <= ps * ps <= 6869641) by nia.
  rewrite u32_s32.
  rewrite (s32_small (25 * 25)) by (unfold in_s32; lia).
  rewrite (s32_small (ps * ps)) by (unfold in_s32; lia).
  rewrite u32_small by lia.
  rewrite Z.pow_2_r. lia.
Qed.

(** C5, amended: for a candidate inside the region of interest, the point
    is rejected for its residual exactly when the error exceeds
    [625 * patchSize ^ 2] and the index of the iteration is strictly
    greater than [max_iterations / 2] (integer division), that is when
    more than half of the budget is behind it; an error above the
    threshold during the first half of the budget does not reject.  The
    window size is in the range where the threshold does not overflow. *)
Theorem residual_rejection_past_half_budget
  (LVL : nat) (L : lin) (it : Z) (v : flow_t)
  (Hhws : 0 <= half_window_size c <= 1310)
  (Hroi : candidate_outside_roi c (pyramid_old c LVL) (candidate T v)
          = Some false) :
  let error := u32 (compare_windows c LVL L (candidate T v)).1 in
  (lk_step T c LVL L it v = Some (IterReject HighResidual) <->
   625 * (2 * half_window_size c + 1) ^ 2 < error
   /\ max_iterations c / 2 < it)
  /\ (2 * it < max_iterations c ->
      lk_step T c LVL L it v <> Some (IterReject HighResidual)).
Proof.
  intros error.
  assert (Hiff : lk_step T c LVL L it v = Some (IterReject HighResidual) <->
                 625 * (2 * half_window_size c + 1) ^ 2 < error
                 /\ max_iterations c / 2 < it).
  { rewrite lk_step_cases, Hroi. fold error.
    unfold residual_too_large. rewrite error_threshold_exact by exact Hhws.
    destruct (Z.ltb_spec (625 * (2 * half_window_size c + 1) ^ 2) error);
      destruct (Z.ltb_spec (max_iterations c / 2) it); cbn [andb];
      split; try tauto; try lia;
      intros Hs; exfalso; exact (solve_step_is_step _ _ _ _ Hs). }
  split; [exact Hiff |].
  intros Hfirst Hrej. apply Hiff in Hrej. destruct Hrej as [_ Hit].
  assert (it <= max_iterations c / 2) by (apply Z.div_le_lower_bound; lia).
  lia.
Qed.

(** ** The update step *)

Lemma quot_in_s32 (a d : Z) : in_s32 a -> 1 <= d -> in_s32 (Z.quot a d).
Proof.
  unfold in_s32. intros Ha Hd. split.
  - assert (H : Z.quot (- a) d <= 2 ^ 31)
      by (apply Z.quot_le_upper_bound; nia).
    rewrite Z.quot_opp_l in H by lia. lia.
  - assert (H : Z.quot a d <= 2 ^ 31 - 1)
      by (apply Z.quot_le_upper_bound; nia).
    lia.
Qed.

Lemma mismatch_exact (wd grad : image_t) :
  in_s32 (image_multiply wd grad) ->
  mismatch wd grad = Z.quot (image_multiply wd grad) 255.
Proof.
  intros Hm. unfold mismatch. rewrite (s32_small _ Hm).
  apply s32_small. apply quot_in_s32; [exact Hm | lia].
Qed.

(** C6: in an iteration that is not rejected, the mismatch vector is
    [b = (image_multiply(diff, DX) / 255, image_multiply(diff, DY) / 255)],
    the step is [((G11 * b_x - G01 * b_y) / Det, (G00 * b_y - G10 * b_x) / Det)]
    and it is added to the flow of the point; the intermediate values are
    in the range of the 32-bit integers that hold them. *)
Theorem flow_step_closed_form
  (LVL : nat) (L : lin) (it : Z) (v v' : flow_t) (sx sy g00 g01 g10 g11 : Z)
  (Hstep : lk_step T c LVL L it v = Some (IterStep v' sx sy))
  (HG : G L = (g00, g01, g10, g11))
  (HDet : 1 <= Det L) :
  let window_diff := (compare_windows c LVL L (candidate T v)).2 in
  let b_x := Z.quot (image_multiply window_diff (window_DX L)) 255 in
  let b_y := Z.quot (image_multiply window_diff (window_DY L)) 255 in
  in_s32 (image_multiply window_diff (window_DX L)) ->
  in_s32 (image_multiply window_diff (window_DY L)) ->
  in_s32 (g11 * b_x) -> in_s32 (g01 * b_y) ->
  in_s32 (g11 * b_x - g01 * b_y) ->
  in_s32 (g00 * b_y) -> in_s32 (g10 * b_x) ->
  in_s32 (g00 * b_y - g10 * b_x) ->
  - 2 ^ (bits (flow_w T) - 1)
    <= flow_x v + Z.quot (g11 * b_x - g01 * b_y) (Det L)
    < 2 ^ (bits (flow_w T) - 1) ->
  - 2 ^ (bits (flow_w T) - 1)
    <= flow_y v + Z.quot (g00 * b_y - g10 * b_x) (Det L)
    < 2 ^ (bits (flow_w T) - 1) ->
  sx = Z.quot (g11 * b_x - g01 * b_y) (Det L)
  /\ sy = Z.quot (g00 * b_y - g10 * b_x) (Det L)
  /\ v' = mk_flow (pos v) (flow_x v + sx) (flow_y v + sy).
Proof.
  intros wd b_x b_y Hmx Hmy H1 H2 H3 H4 H5 H6 Hfx Hfy.
  rewrite lk_step_cases in Hstep.
  destruct (candidate_outside_roi c (pyramid_old c LVL) (candidate T v))
    as [[|]|]; try discriminate.
  destruct (residual_too_large c _ it); try discriminate.
  fold wd in Hstep. unfold solve_step in Hstep. rewrite HG in Hstep.
  rewrite !mismatch_exact in Hstep by assumption.
  fold b_x b_y in Hstep.
  rewrite !c_div_Some in Hstep by lia. cbn [mbind option_bind] in Hstep.
  rewrite (s32_small (g11 * b_x)), (s32_small (g01 * b_y)),
    (s32_small (g00 * b_y)), (s32_small (g10 * b_x)) in Hstep by assumption.
  rewrite (s32_small (g11 * b_x - g01 * b_y)),
    (s32_small (g00 * b_y - g10 * b_x)) in Hstep by assumption.
  rewrite (s32_small (Z.quot (g11 * b_x - g01 * b_y) (Det L))) in Hstep
    by (apply quot_in_s32; assumption).
  rewrite (s32_small (Z.quot (g00 * b_y - g10 * b_x) (Det L))) in Hstep
    by (apply quot_in_s32; assumption).
  rewrite (s32_small (flow_x v + _)), (s32_small (flow_y v + _)) in Hstep
    by (apply flow_range_s32; assumption).
  rewrite !sflow_small in Hstep by assumption.
  injection Hstep as <- <- <-. repeat split; reflexivity.
Qed.

(** ** The refinement loop *)

Lemma converged_small_step (sx sy : Z) :
  0 <= step_threshold c <= 255 ->
  Z.abs sx + Z.abs sy < step_threshold c -> converged c sx sy = true.
Proof.
  intros Hst Hsmall. unfold converged, c_abs.
  rewrite (s32_small (Z.abs sx)), (s32_small (Z.abs sy)) by (unfold in_s32; lia).
  rewrite s32_small by (unfold in_s32; lia).
  apply Z.ltb_lt. exact Hsmall.
Qed.

Lemma lk_iterate_exit (LVL : nat) (L : lin) (fuel : nat) :
  forall (it : Z) (v : flow_t) (r : refine_result),
    lk_iterate T c LVL L fuel it v = Some r ->
    (iterations r <= fuel)%nat
    /\ (tracked r = false <-> exists why, exit_by r = Rejected why)
    /\ (exit_by r = IterationsExhausted -> iterations r = fuel).
Proof.
  induction fuel as [|fuel IH]; intros it v r Hr; cbn [lk_iterate] in Hr.
  - injection Hr as <-. cbn. repeat split; try lia; try discriminate.
    intros [why Hw]. discriminate.
  - destruct (lk_step T c LVL L it v) as [[why | v' sx sy]|];
      cbn [mbind option_bind] in Hr; [| | discriminate].
    + injection Hr as <-. cbn. repeat split; try lia; try discriminate.
      intros _. exists why. reflexivity.
    + destruct (converged c sx sy).
      * injection Hr as <-. cbn. repeat split; try lia; try discriminate.
        intros [why Hw]. discriminate.
      * destruct (lk_iterate T c LVL L fuel (it + 1) v') as [res|] eqn:Hres;
          cbn [mbind option_bind] in Hr; [| discriminate].
        injection Hr as <-. cbn.
        destruct (IH _ _ _ Hres) as (Hle & Htr & Hex).
        repeat split; try lia; try apply Htr.
        intros He. rewrite (Hex He). reflexivity.
Qed.

Lemma lk_iterate_total (LVL : nat) (L : lin) (fuel : nat) :
  subpixel_factor c <> 0 -> Det L <> 0 ->
  forall (it : Z) (v : flow_t),
    exists r, lk_iterate T c LVL L fuel it v = Some r.
Proof.
  intros Hsf Hd. induction fuel as [|fuel IH]; intros it v; cbn [lk_iterate].
  - eexists. reflexivity.
  - destruct (lk_step_total LVL L it v Hsf Hd) as [[why | v' sx sy] ->];
      cbn [mbind option_bind].
    + eexists. reflexivity.
    + destruct (converged c sx sy); [eexists; reflexivity |].
      destruct (IH (it + 1) v') as [res ->]. cbn [mbind option_bind].
      eexists. reflexivity.
Qed.

(** A point whose refinement ends with [tracked] set is stored in its
    slot and counted. *)
Lemma track_point_accepts (LVL : nat) (pt : point_t) (st : state)
      (v0 : flow_t) (L : lin) (r : refine_result) :
  seed_point T c LVL pt st = Some (Some v0) ->
  linearize c LVL v0 = Some L ->
  1 <= Det L ->
  lk_iterate T c LVL L (Z.to_nat (max_iterations c)) 0 v0 = Some r ->
  tracked r = true ->
  track_point T c LVL pt st =
    Some (mk_state (<[Z.to_nat (new_p st) := vec r]> (vectors st))
                   (u16 (new_p st + 1)) (u16 (points_cnt st + 1))).
Proof.
  intros Hseed Hlin Hdet Hit Htr. unfold track_point.
  rewrite Hseed. cbn [mbind option_bind]. rewrite Hlin. cbn [mbind option_bind].
  destruct (Z.ltb_spec (Det L) 1); [lia |].
  rewrite Hit. cbn [mbind option_bind]. rewrite Htr. reflexivity.
Qed.

Lemma converged_large_step (sx sy : Z) :
  step_threshold c <= Z.abs sx + Z.abs sy < 2 ^ 31 ->
  converged c sx sy = false.
Proof.
  intros Hlarge. unfold converged, c_abs.
  rewrite (s32_small (Z.abs sx)), (s32_small (Z.abs sy)) by (unfold in_s32; lia).
  rewrite s32_small by (unfold in_s32; lia).
  apply Z.ltb_ge. lia.
Qed.

(** How the loop goes on after a pass that neither rejects nor
    converges. *)
Lemma lk_iterate_continues (LVL : nat) (L : lin) (fuel : nat) (it : Z)
      (v v' : flow_t) (sx sy : Z) :
  lk_step T c LVL L it v = Some (IterStep v' sx sy) ->
  step_threshold c <= Z.abs sx + Z.abs sy < 2 ^ 31 ->
  lk_iterate T c LVL L (S fuel) it v =
    (res ← lk_iterate T c LVL L fuel (it + 1) v';
     Some (mk_refine (tracked res) (vec res) (S (iterations res))
                     (exit_by res))).
Proof.
  intros Hstep Hlarge. cbn [lk_iterate]. rewrite Hstep.
  cbn [mbind option_bind]. rewrite (converged_large_step sx sy Hlarge).
  reflexivity.
Qed.

(** After [k] passes that go on, the loop behaves as the loop started at
    the vector these passes have accumulated. *)
Lemma lk_iterate_after_passes (LVL : nat) (L : lin) (it : Z) (v vk : flow_t)
      (k : nat) :
  passes T c LVL L it v k vk ->
  forall (fuel : nat),
    lk_iterate T c LVL L (k + fuel) it v =
      (res ← lk_iterate T c LVL L fuel (it + Z.of_nat k) vk;
       Some (mk_refine (tracked res) (vec res) (k + iterations res)
                       (exit_by res))).
Proof.
  induction 1 as [it v | it v v' v'' sx sy k Hstep Hlarge Hrest IH];
    intros fuel.
  - cbn [Nat.add Z.of_nat]. rewrite Z.add_0_r.
    destruct (lk_iterate T c LVL L fuel it v) as [[tr ve n ex]|]; reflexivity.
  - cbn [Nat.add]. rewrite (lk_iterate_continues LVL L _ it v v' sx sy Hstep Hlarge).
    rewrite IH.
    replace (it + 1 + Z.of_nat k) with (it + Z.of_nat (S k)) by lia.
    destruct (lk_iterate T c LVL L fuel (it + Z.of_nat (S k)) v'')
      as [res|]; reflexivity.
Qed.

(** C7: the refinement loop of a point returns after at most
    [max_iterations] passes.  A pass whose step satisfies
    [|step_x| + |step_y| < step_threshold] ends the loop with the point
    tracked and the flow of that pass, also after any number of passes
    that went on; a pass with a larger step goes on with the updated
    flow; a rejection ends the loop untracked.  When all the passes
    allowed go on, without convergence or rejection, the flow they have
    accumulated is the result, the exit is [IterationsExhausted] and the
    point is tracked, stored with that flow and counted. *)
Theorem refinement_loop_bounded
  (LVL : nat) (L : lin)
  (Hsf : subpixel_factor c <> 0) (HDet : 1 <= Det L)
  (Hst : 0 <= step_threshold c <= 255) :
  (forall (it : Z) (v : flow_t),
      exists r,
        lk_iterate T c LVL L (Z.to_nat (max_iterations c)) it v = Some r
        /\ (iterations r <= Z.to_nat (max_iterations c))%nat
        /\ (exit_by r = Converged \/ exit_by r = IterationsExhausted ->
            tracked r = true))
  /\ (forall (fuel : nat) (it : Z) (v v' : flow_t) (sx sy : Z),
         lk_step T c LVL L it v = Some (IterStep v' sx sy) ->
         Z.abs sx + Z.abs sy < step_threshold c ->
         lk_iterate T c LVL L (S fuel) it v
         = Some (mk_refine true v' 1 Converged))
  /\ (forall (it : Z) (v : flow_t),
         lk_iterate T c LVL L 0 it v
         = Some (mk_refine true v 0 IterationsExhausted))
  /\ (forall (pt : point_t) (st : state) (v0 : flow_t) (r : refine_result),
         seed_point T c LVL pt st = Some (Some v0) ->
         linearize c LVL v0 = Some L ->
         lk_iterate T c LVL L (Z.to_nat (max_iterations c)) 0 v0 = Some r ->
         exit_by r = Converged \/ exit_by r = IterationsExhausted ->
         track_point T c LVL pt st =
           Some (mk_state (<[Z.to_nat (new_p st) := vec r]> (vectors st))
                          (u16 (new_p st + 1)) (u16 (points_cnt st + 1))))
  /\ (forall (fuel : nat) (it : Z) (v v' : flow_t) (sx sy : Z),
         lk_step T c LVL L it v = Some (IterStep v' sx sy) ->
         step_threshold c <= Z.abs sx + Z.abs sy < 2 ^ 31 ->
         lk_iterate T c LVL L (S fuel) it v =
           (res ← lk_iterate T c LVL L fuel (it + 1) v';
            Some (mk_refine (tracked res) (vec res) (S (iterations res))
                            (exit_by res))))
  /\ (forall (k : nat) (it : Z) (v vk : flow_t),
         passes T c LVL L it v k vk ->
         lk_iterate T c LVL L k it v
         = Some (mk_refine true vk k IterationsExhausted))
  /\ (forall (k fuel : nat) (it : Z) (v vk v' : flow_t) (sx sy : Z),
         passes T c LVL L it v k vk ->
         lk_step T c LVL L (it + Z.of_nat k) vk = Some (IterStep v' sx sy) ->
         Z.abs sx + Z.abs sy < step_threshold c ->
         lk_iterate T c LVL L (k + S fuel) it v
         = Some (mk_refine true v' (S k) Converged))
  /\ (forall (k fuel : nat) (it : Z) (v vk : flow_t) (why : reject_reason),
         passes T c LVL L it v k vk ->
         lk_step T c LVL L (it + Z.of_nat k) vk = Some (IterReject why) ->
         lk_iterate T c LVL L (k + S fuel) it v
         = Some (mk_refine false vk (S k) (Rejected why)))
  /\ (forall (pt : point_t) (st : state) (v0 vk : flow_t),
         seed_point T c LVL pt st = Some (Some v0) ->
         linearize c LVL v0 = Some L ->
         passes T c LVL L 0 v0 (Z.to_nat (max_iterations c)) vk ->
         track_point T c LVL pt st =
           Some (mk_state (<[Z.to_nat (new_p st) := vk]> (vectors st))
                          (u16 (new_p st + 1)) (u16 (points_cnt st + 1)))).
Proof.
  assert (Htracked : forall fuel it v r,
             lk_iterate T c LVL L fuel it v = Some r ->
             exit_by r = Converged \/ exit_by r = IterationsExhausted ->
             tracked r = true).
  { intros fuel it v r Hr Hex.
    destruct (lk_iterate_exit LVL L fuel it v r Hr) as (_ & Htr & _).
    destruct (tracked r) eqn:Ht; [reflexivity |].
    destruct Htr as [Htr _]. destruct (Htr eq_refl) as [why Hw].
    rewrite Hw in Hex. destruct Hex; discriminate. }
  assert (Hexhaust : forall k it v vk,
             passes T c LVL L it v k vk ->
             lk_iterate T c LVL L k it v
             = Some (mk_refine true vk k IterationsExhausted)).
  { intros k it v vk Hp.
    pose proof (lk_iterate_after_passes LVL L it v vk k Hp 0) as Hrun.
    rewrite Nat.add_0_r in Hrun. rewrite Hrun. cbn [lk_iterate].
    cbn [mbind option_bind tracked vec iterations exit_by].
    rewrite Nat.add_0_r. reflexivity. }
  split; [| split; [| split; [| split; [| split; [| split; [| split;
    [| split]]]]]]].
  - intros it v.
    destruct (lk_iterate_total LVL L (Z.to_nat (max_iterations c)) Hsf
                ltac:(lia) it v) as [r Hr].
    exists r. split; [exact Hr |]. split.
    + apply (lk_iterate_exit LVL L _ it v r Hr).
    + apply (Htracked _ _ _ _ Hr).
  - intros fuel it v v' sx sy Hstep Hsmall. cbn [lk_iterate].
    rewrite Hstep. cbn [mbind option_bind].
    rewrite (converged_small_step sx sy Hst Hsmall). reflexivity.
  - intros it v. reflexivity.
  - intros pt st v0 r Hseed Hlin Hr Hex.
    apply (track_point_accepts LVL pt st v0 L r); try assumption.
    apply (Htracked _ _ _ _ Hr Hex).
  - intros fuel it v v' sx sy Hstep Hlarge.
    apply (lk_iterate_continues LVL L fuel it v v' sx sy Hstep Hlarge).
  - exact Hexhaust.
  - intros k fuel it v vk v' sx sy Hp Hstep Hsmall.
    rewrite (lk_iterate_after_passes LVL L it v vk k Hp (S fuel)).
    cbn [lk_iterate]. rewrite Hstep. cbn [mbind option_bind].
    rewrite (converged_small_step sx sy Hst Hsmall).
    cbn [mbind option_bind tracked vec iterations exit_by].
    rewrite Nat.add_1_r. reflexivity.
  - intros k fuel it v vk why Hp Hstep.
    rewrite (lk_iterate_after_passes LVL L it v vk k Hp (S fuel)).
    cbn [lk_iterate]. rewrite Hstep.
    cbn [mbind option_bind tracked vec iterations exit_by].
    rewrite Nat.add_1_r. reflexivity.
  - intros pt st v0 vk Hseed Hlin Hp.
    apply (track_point_accepts LVL pt st v0 L
             (mk_refine true vk (Z.to_nat (max_iterations c))
                IterationsExhausted));
      try assumption; [apply Hexhaust; exact Hp | reflexivity].
Qed.

(** ** Bookkeeping of the point loop *)

Lemma track_point_counts (LVL : nat) (pt : point_t) (st st' : state) :
  track_point T c LVL pt st = Some st' ->
  new_p st = points_cnt st ->
  new_p st' = points_cnt st'
  /\ (points_cnt st' = points_cnt st
      \/ points_cnt st' = u16 (points_cnt st + 1)).
Proof.
  unfold track_point. intros H Hsync.
  destruct (seed_point T c LVL pt st) as [[v0|]|];
    cbn [mbind option_bind] in H; [| | discriminate].
  - destruct (linearize c LVL v0) as [L|];
      cbn [mbind option_bind] in H; [| discriminate].
    destruct (Det L <? 1).
    + injection H as <-. cbn. auto.
    + destruct (lk_iterate T c LVL L (Z.to_nat (max_iterations c)) 0 v0)
        as [r|]; cbn [mbind option_bind] in H; [| discriminate].
      destruct (tracked r); injection H as <-; cbn; rewrite ?Hsync; auto.
  - injection H as <-. auto.
Qed.

Lemma point_loop_counts (LVL : nat) (pts : list point_t) :
  forall st st' : state,
    point_loop T c LVL pts st = Some st' ->
    new_p st = points_cnt st ->
    0 <= points_cnt st ->
    points_cnt st + Z.of_nat (length pts) < 2 ^ 16 ->
    new_p st' = points_cnt st'
    /\ points_cnt st <= points_cnt st'
       <= points_cnt st + Z.of_nat (length pts).
Proof.
  induction pts as [|pt rest IH]; intros st st' H Hsync H0 Hlen;
    cbn [point_loop] in H.
  - injection H as <-. cbn. lia.
  - cbn [length] in Hlen |- *.
    destruct (track_point T c LVL pt st) as [st1|] eqn:Htp;
      cbn [mbind option_bind] in H; [| discriminate].
    destruct (track_point_counts LVL pt st st1 Htp Hsync) as [Hs1 Hc1].
    assert (Hstep : points_cnt st <= points_cnt st1 <= points_cnt st + 1).
    { destruct Hc1 as [-> | ->]; [lia |]. rewrite u16_small; lia. }
    destruct (IH st1 st' H Hs1) as [Hs' Hc']; lia.
Qed.

Lemma level_counts (LVL : nat) (points : list point_t)
      (vs vs' : list flow_t) (cnt cnt' : Z) :
  0 <= max_points c < 2 ^ 16 -> 0 <= cnt ->
  level T c LVL points vs cnt = Some (vs', cnt') ->
  0 <= cnt' <= Z.min (max_points c) cnt
  /\ cnt' <= Z.of_nat (length points).
Proof.
  intros Hmax Hcnt H. unfold level in H.
  destruct (point_loop T c LVL _ (mk_state vs 0 0)) as [st|] eqn:Hloop;
    cbn [mbind option_bind] in H; [| discriminate].
  injection H as <- <-.
  apply point_loop_counts in Hloop; cbn in *; try lia;
    rewrite length_take in *; lia.
Qed.

Lemma level_loop_counts (LVL : nat) :
  forall (points : list point_t) (vs vs' : list flow_t) (cnt cnt' : Z),
    0 <= max_points c < 2 ^ 16 -> 0 <= cnt ->
    level_loop T c LVL points vs cnt = Some (vs', cnt') ->
    0 <= cnt' <= Z.min (max_points c) cnt
    /\ cnt' <= Z.of_nat (length points).
Proof.
  induction LVL as [|l IH]; intros points vs vs' cnt cnt' Hmax Hcnt H;
    cbn [level_loop] in H;
    destruct (level T c _ points vs cnt) as [[vs1 cnt1]|] eqn:Hl;
    cbn [mbind option_bind] in H; try discriminate;
    pose proof (level_counts _ _ _ _ _ _ Hmax Hcnt Hl) as [H1 H1'].
  - injection H as <- <-. lia.
  - cbn [fst snd] in H. apply IH in H; lia.
Qed.

(** The count returned by a call is at most the number of input points
    and at most [max_points], and no level reports more survivors than
    the level before it handed over. *)
Lemma survivor_count_bounds (points : list point_t) (junk : flow_t)
      (vs : list flow_t) (cnt : Z) :
  0 <= max_points c < 2 ^ 16 ->
  opticFlowLK T c points junk = Some (vs, cnt) ->
  0 <= cnt <= Z.min (max_points c) (Z.of_nat (length points)).
Proof.
  intros Hmax H. unfold opticFlowLK in H.
  destruct (127 <? pyramid_level c); [discriminate |].
  apply level_loop_counts in H; lia.
Qed.

(** ** Points near the border at the coarsest level *)


Lemma track_point_rejects_outside (LVL : nat) (pt : point_t) (st : state) :
  Z.of_nat LVL = pyramid_level c ->
  input_outside_roi T c (pyramid_old c LVL) pt = true ->
  track_point T c LVL pt st = Some st.
Proof.
  intros Hl Hout. unfold track_point, seed_point.
  rewrite Hl, Z.eqb_refl, Hout. reflexivity.
Qed.

Lemma track_point_finer_any_point (LVL : nat) (pt pt' : point_t) (st : state) :
  Z.of_nat LVL <> pyramid_level c ->
  track_point T c LVL pt st = track_point T c LVL pt' st.
Proof.
  intros Hl. unfold track_point, seed_point.
  destruct (Z.eqb_spec (Z.of_nat LVL) (pyramid_level c));
    [contradiction | reflexivity].
Qed.


Lemma point_loop_finer_any_points (LVL : nat) (pts : list point_t) :
  Z.of_nat LVL <> pyramid_level c ->
  forall (pts' : list point_t) (st : state),
    length pts = length pts' ->
    point_loop T c LVL pts st = point_loop T c LVL pts' st.
Proof.
  intros Hl. induction pts as [|pt rest IH]; intros [|pt' rest'] st Hlen;
    try discriminate; [reflexivity |].
  cbn [point_loop].
  rewrite (track_point_finer_any_point LVL pt pt' st Hl).
  destruct (track_point T c LVL pt' st) as [st1|];
    cbn [mbind option_bind]; [| reflexivity].
  apply IH. cbn [length] in Hlen. lia.
Qed.

Lemma level_finer_any_points (LVL : nat) (points points' : list point_t)
      (vs : list flow_t) (cnt : Z) :
  Z.of_nat LVL <> pyramid_level c ->
  cnt <= Z.of_nat (length points) -> cnt <= Z.of_nat (length points') ->
  level T c LVL points vs cnt = level T c LVL points' vs cnt.
Proof.
  intros Hl H1 H2. unfold level.
  rewrite (point_loop_finer_any_points LVL _ Hl
             (take (Z.to_nat (Z.min (max_points c) cnt)) points'));
    [reflexivity |].
  rewrite !length_take. lia.
Qed.

Lemma level_loop_finer_any_points (LVL : nat) :
  forall (points points' : list point_t) (vs : list flow_t) (cnt : Z),
    0 <= max_points c < 2 ^ 16 -> 0 <= cnt ->
    Z.of_nat LVL < pyramid_level c ->
    cnt <= Z.of_nat (length points) -> cnt <= Z.of_nat (length points') ->
    level_loop T c LVL points vs cnt = level_loop T c LVL points' vs cnt.
Proof.
  induction LVL as [|l IH]; intros points points' vs cnt Hmax Hcnt Hl H1 H2;
    cbn [level_loop];
    rewrite (level_finer_any_points _ points points' vs cnt) by lia;
    [reflexivity |].
  destruct (level T c (S l) points' vs cnt) as [[vs1 cnt1]|] eqn:Hlev;
    cbn [mbind option_bind fst snd]; [| reflexivity].
  pose proof (level_counts _ _ _ _ _ _ Hmax Hcnt Hlev) as [Hb _].
  apply IH; lia.
Qed.

Lemma take_min_length (l : list point_t) (m : Z) :
  0 <= m ->
  take (Z.to_nat (Z.min m (Z.of_nat (length l)))) l = take (Z.to_nat m) l.
Proof.
  intros Hm. destruct (Z.le_gt_cases m (Z.of_nat (length l))).
  - rewrite Z.min_l by lia. reflexivity.
  - rewrite Z.min_r by lia. rewrite Nat2Z.id, !take_ge by lia. reflexivity.
Qed.



End Properties.

(** ** Worked examples *)

(** Closed arithmetic side conditions are settled by evaluation. *)
Ltac by_evaluation :=
  vm_compute;
  first [ reflexivity
        | discriminate
        | split; [discriminate | reflexivity]
        | split; discriminate ].

(** C10 at [pyramid_level = 2]: the divisor is 4 and the seed exists. *)
Lemma exp_divisor_wraps_at_eight_witness :
  exp call_still = 2 ^ 2 /\ exp call_still <> 0
  /\ exists v, seed_point T16 call_still 2 (mk_point 20 20)
                 (mk_state [zero_flow] 0 0) = Some (Some v).
Proof.
  destruct (exp_divisor_wraps_at_eight T16 call_still) as [Hsmall _].
  destruct (Hsmall ltac:(by_evaluation)) as (He & Hnz & Hseed).
  split; [exact He |]. split; [exact Hnz |].
  exact (Hseed (mk_point 20 20) (mk_state [zero_flow] 0 0) zero_flow
           eq_refl eq_refl).
Defined.

(** C8 on the point (20, 20) at [pyramid_level = 2] and
    [subpixel_factor = 10]: the position is (50, 50). *)
Lemma coarsest_level_seed_witness :
  seed_point T16 call_still 2 (mk_point 20 20) (mk_state [zero_flow] 0 0)
  = Some (Some (mk_flow (mk_point 50 50) 0 0)).
Proof.
  apply (coarsest_level_seed T16 call_still (mk_point 20 20)
           (mk_state [zero_flow] 0 0) zero_flow);
    try reflexivity; by_evaluation.
Defined.

(** C5, as stated, fails at [max_iterations = 10] and iteration 5: five
    iterations, half of the budget, are behind it and the error 100000
    exceeds [625 * 11 ^ 2 = 75625], yet the point is not rejected. *)
Lemma residual_rejection_at_half_budget_counterexample :
  ~ (lk_step T16 call_noisy 0 lin_noisy 5 (mk_flow (mk_point 500 500) 0 0)
     = Some (IterReject HighResidual)
     <-> 625 * (2 * 5 + 1) ^ 2 < 100000 /\ at_least_half_elapsed 10 5).
Proof.
  intros [_ Hrej].
  assert (H : lk_step T16 call_noisy 0 lin_noisy 5
                (mk_flow (mk_point 500 500) 0 0)
              = Some (IterReject HighResidual)).
  { apply Hrej. unfold at_least_half_elapsed. lia. }
  vm_compute in H. discriminate H.
Qed.

(** The amended C5 at iteration 6 of 10. *)
Lemma residual_rejection_past_half_budget_witness :
  lk_step T16 call_noisy 0 lin_noisy 6 (mk_flow (mk_point 500 500) 0 0)
  = Some (IterReject HighResidual)
  <-> 625 * (2 * 5 + 1) ^ 2 < 100000 /\ 10 / 2 < 6.
Proof.
  destruct (residual_rejection_past_half_budget T16 call_noisy 0 lin_noisy 6
              (mk_flow (mk_point 500 500) 0 0)
              ltac:(by_evaluation) eq_refl) as [Hiff _].
  exact Hiff.
Defined.

(** C6 on products of 72600: b = (284, 284), step = (60, 60). *)
Lemma flow_step_closed_form_witness :
  60 = Z.quot (47 * Z.quot 72600 255 - 0 * Z.quot 72600 255) 220
  /\ 60 = Z.quot (47 * Z.quot 72600 255 - 0 * Z.quot 72600 255) 220
  /\ mk_flow (mk_point 950 500) 60 60
     = mk_flow (mk_point 950 500) (0 + 60) (0 + 60).
Proof.
  apply (flow_step_closed_form T16 call_jump 0 lin_jump 0
           (mk_flow (mk_point 950 500) 0 0)
           (mk_flow (mk_point 950 500) 60 60) 60 60 47 0 0 47);
    try reflexivity; by_evaluation.
Defined.

(** C7 on a ramp that drifts by (60, 60) subpixels in each of the three
    passes allowed: the loop is exhausted and returns the flow
    (180, 180). *)
Lemma refinement_loop_bounded_witness :
  lk_iterate T16 call_ramp 0 lin_ramp 3 0 (mk_flow (mk_point 500 500) 0 0)
  = Some (mk_refine true (mk_flow (mk_point 500 500) 180 180) 3
            IterationsExhausted).
Proof.
  destruct (refinement_loop_bounded T16 call_ramp 0 lin_ramp
              ltac:(by_evaluation) ltac:(by_evaluation) ltac:(by_evaluation))
    as (_ & _ & _ & _ & _ & Hexhaust & _).
  apply Hexhaust.
  apply passes_next with (v' := mk_flow (mk_point 500 500) 60 60)
                         (sx := 60) (sy := 60);
    [by_evaluation | by_evaluation |].
  apply passes_next with (v' := mk_flow (mk_point 500 500) 120 120)
                         (sx := 60) (sy := 60);
    [by_evaluation | by_evaluation |].
  apply passes_next with (v' := mk_flow (mk_point 500 500) 180 180)
                         (sx := 60) (sy := 60);
    [by_evaluation | by_evaluation |].
  apply passes_done.
Defined.


(** With 32-bit coordinates the subtraction of line 131 is unsigned: a
    point right of the 25 x 25 coarsest image passes the test that the
    16-bit header rejects it with. *)
Lemma wide_coordinates_pass_beyond_coarsest_image :
  input_outside_roi T32 call_still (pyramid_old call_still 2) (mk_point 50 50)
  = false
  /\ input_outside_roi T16 call_still (pyramid_old call_still 2)
       (mk_point 50 50)
     = true.
Proof. split; vm_compute; reflexivity. Qed.

(** C1 on the code.  Both points of [points_ab] are tracked at level 1,
    with the estimates [estimate_a] and [estimate_b].  At level 0 the
    first pass doubles slot 0 and rejects it for its determinant; the
    second pass is seeded with the double of slot 0 once more, (400, 400),
    and not with the double of [estimate_b], (300, 300). *)
Theorem finer_level_seed_after_rejection :
  level T16 call_flat_spot 1 points_ab (replicate 10 zero_flow) 2
  = Some (estimate_a :: estimate_b :: replicate 8 zero_flow, 2)
  /\ track_point T16 call_flat_spot 0 (mk_point 20 20)
       (mk_state [estimate_a; estimate_b] 0 0)
     = Some (mk_state [mk_flow (mk_point 200 200) 0 0; estimate_b] 0 0)
  /\ seed_point T16 call_flat_spot 0 (mk_point 30 30)
       (mk_state [mk_flow (mk_point 200 200) 0 0; estimate_b] 0 0)
     = Some (Some (mk_flow (mk_point 400 400) 0 0))
  /\ mk_flow (mk_point 400 400) 0 0
     <> mk_flow (mk_point (2 * p_x (pos estimate_b))
                          (2 * p_y (pos estimate_b)))
                (2 * flow_x estimate_b) (2 * flow_y estimate_b).
Proof.
  repeat split; try (vm_compute; reflexivity).
  vm_compute. discriminate.
Qed.

(** C2 on the code.  The first point is rejected at level 0 (neither
    [new_p] nor the count advances), yet the call returns one vector,
    computed from the slot of that point, whatever the second point was;
    the estimate of the second point, which no test rejected, is not
    returned. *)
Theorem rejected_slot_returns_in_output :
  track_point T16 call_flat_spot 0 (mk_point 20 20)
    (mk_state [estimate_a; estimate_b] 0 0)
  = Some (mk_state [mk_flow (mk_point 200 200) 0 0; estimate_b] 0 0)
  /\ opticFlowLK T16 call_flat_spot points_ab zero_flow
     = Some (mk_flow (mk_point 400 400) 0 0 :: estimate_b
               :: replicate 8 zero_flow, 1)
  /\ opticFlowLK T16 call_flat_spot [mk_point 20 20; mk_point 25 25]
       zero_flow
     = Some (mk_flow (mk_point 400 400) 0 0
               :: mk_flow (mk_point 125 125) 0 0
               :: replicate 8 zero_flow, 1).
Proof.
  repeat split; vm_compute; reflexivity.
Qed.

(** C3 on the code.  For G = (655360, 0, 0, 65536) and
    [subpixel_factor = 10] the scaled determinant is [2 ^ 32]; stored in
    32 bits it is 0 and the point is rejected.  For
    G = (50000, 50000, 50000, 50000) the determinant is 0, but the product
    [G[1] * G[2]] is formed in 32 bits and the point passes the test. *)
Theorem determinant_narrowed_to_32_bits :
  exact_scaled_determinant (655360, 0, 0, 65536) 10 = 2 ^ 32
  /\ determinant call_strong (655360, 0, 0, 65536) = Some 0
  /\ opticFlowLK T16 call_strong [mk_point 50 50] zero_flow
     = Some ([mk_flow (mk_point 500 500) 0 0], 0)
  /\ exact_scaled_determinant (50000, 50000, 50000, 50000) 10 = 0
  /\ determinant call_strong (50000, 50000, 50000, 50000) = Some 429496729.
Proof.
  repeat split; vm_compute; reflexivity.
Qed.

(** C4 on the code.  A point at (95, 50) of a 100 x 100 frame takes a
    first step of 60 subpixels; the candidate of the second pass lies at
    pixel 101, beyond the image, the test of the region of interest does
    not fire, the window is taken there and the point is returned as
    tracked. *)
Theorem candidate_beyond_image_not_rejected :
  lk_step T16 call_jump 0 lin_jump 0 (mk_flow (mk_point 950 500) 0 0)
  = Some (IterStep (mk_flow (mk_point 950 500) 60 60) 60 60)
  /\ candidate T16 (mk_flow (mk_point 950 500) 60 60) = mk_point 1010 560
  /\ closer_to_border 100 100 5 (1010 / 10) (560 / 10)
  /\ candidate_outside_roi call_jump (pyramid_old call_jump 0)
       (mk_point 1010 560) = Some false
  /\ lk_step T16 call_jump 0 lin_jump 1 (mk_flow (mk_point 950 500) 60 60)
     = Some (IterStep (mk_flow (mk_point 950 500) 60 60) 0 0)
  /\ opticFlowLK T16 call_jump [mk_point 95 50] zero_flow
     = Some ([mk_flow (mk_point 950 500) 60 60], 1).
Proof.
  repeat split; try (vm_compute; reflexivity).
  unfold closer_to_border. right. left. vm_compute. reflexivity.
Qed.

(** * Further properties of the call *)

Section CallProperties.
Context `{IL : ImageLib}.
Variable T : header.
Variable c : call.

(** ** What a pass and a point may change *)

Lemma solve_step_keeps_pos (L : lin) (wd : image_t) (v v' : flow_t) (sx sy : Z) :
  solve_step T L wd v = Some (IterStep v' sx sy) -> pos v' = pos v.
Proof.
  unfold solve_step, c_div. destruct (G L) as [[[g0 g1] g2] g3].
  destruct (Det L =? 0); cbn [mbind option_bind]; [discriminate |].
  intros H. injection H as <- _ _. reflexivity.
Qed.

Lemma lk_step_keeps_pos (LVL : nat) (L : lin) (it : Z) (v v' : flow_t)
      (sx sy : Z) :
  lk_step T c LVL L it v = Some (IterStep v' sx sy) -> pos v' = pos v.
Proof.
  rewrite lk_step_cases.
  destruct (candidate_outside_roi c (pyramid_old c LVL) (candidate T v))
    as [[|]|]; try discriminate.
  destruct (residual_too_large c _ it); try discriminate.
  apply solve_step_keeps_pos.
Qed.

Lemma lk_iterate_keeps_pos (LVL : nat) (L : lin) (fuel : nat) :
  forall (it : Z) (v : flow_t) (r : refine_result),
    lk_iterate T c LVL L fuel it v = Some r -> pos (vec r) = pos v.
Proof.
  induction fuel as [|fuel IH]; intros it v r Hr; cbn [lk_iterate] in Hr.
  - injection Hr as <-. reflexivity.
  - destruct (lk_step T c LVL L it v) as [[why | v' sx sy]|] eqn:Hstep;
      cbn [mbind option_bind] in Hr; [| | discriminate].
    + injection Hr as <-. reflexivity.
    + apply lk_step_keeps_pos in Hstep.
      destruct (converged c sx sy).
      * injection Hr as <-. exact Hstep.
      * destruct (lk_iterate T c LVL L fuel (it + 1) v') as [res|] eqn:Hres;
          cbn [mbind option_bind] in Hr; [| discriminate].
        injection Hr as <-. cbn. rewrite (IH _ _ _ Hres). exact Hstep.
Qed.

(** A seed is only produced for a slot of the array. *)
Lemma seed_point_slot (LVL : nat) (pt : point_t) (st : state) (v0 : flow_t) :
  seed_point T c LVL pt st = Some (Some v0) ->
  (Z.to_nat (new_p st) < length (vectors st))%nat.
Proof.
  unfold seed_point. intros H.
  destruct (vectors st !! Z.to_nat (new_p st)) as [cur|] eqn:Hslot.
  - apply lookup_lt_Some in Hslot. exact Hslot.
  - destruct (Z.of_nat LVL =? pyramid_level c);
      [destruct (input_outside_roi T c (pyramid_old c LVL) pt) |];
      discriminate.
Qed.

(** The body of the point loop either leaves the loop variables alone or
    overwrites slot [new_p] with a vector that has the position of the
    seed, and then advances both counters or neither. *)
Lemma track_point_shape (LVL : nat) (pt : point_t) (st st' : state) :
  track_point T c LVL pt st = Some st' ->
  (seed_point T c LVL pt st = Some None /\ st' = st)
  \/ exists v0 v,
      seed_point T c LVL pt st = Some (Some v0)
      /\ pos v = pos v0
      /\ vectors st' = <[Z.to_nat (new_p st) := v]> (vectors st)
      /\ ((new_p st' = new_p st /\ points_cnt st' = points_cnt st)
          \/ (new_p st' = u16 (new_p st + 1)
              /\ points_cnt st' = u16 (points_cnt st + 1))).
Proof.
  unfold track_point. intros H.
  destruct (seed_point T c LVL pt st) as [[v0|]|] eqn:Hseed;
    cbn [mbind option_bind] in H; [| | discriminate].
  - right. exists v0.
    destruct (linearize c LVL v0) as [L|];
      cbn [mbind option_bind] in H; [| discriminate].
    destruct (Det L <? 1).
    + injection H as <-. exists v0. cbn.
      repeat (split; [reflexivity |]). auto.
    + destruct (lk_iterate T c LVL L (Z.to_nat (max_iterations c)) 0 v0)
        as [r|] eqn:Hr; cbn [mbind option_bind] in H; [| discriminate].
      exists (vec r). apply lk_iterate_keeps_pos in Hr.
      destruct (tracked r); injection H as <-; cbn;
        repeat (split; [assumption || reflexivity |]); auto.
  - left. injection H as <-. split; reflexivity.
Qed.

Lemma track_point_length (LVL : nat) (pt : point_t) (st st' : state) :
  track_point T c LVL pt st = Some st' ->
  length (vectors st') = length (vectors st).
Proof.
  intros H. destruct (track_point_shape LVL pt st st' H)
    as [[_ ->] | (v0 & v & _ & _ & Hvs & _)]; [reflexivity |].
  rewrite Hvs. apply length_insert.
Qed.

Lemma point_loop_length (LVL : nat) (pts : list point_t) :
  forall st st' : state,
    point_loop T c LVL pts st = Some st' ->
    length (vectors st') = length (vectors st).
Proof.
  induction pts as [|pt rest IH]; intros st st' H; cbn [point_loop] in H.
  - injection H as <-. reflexivity.
  - destruct (track_point T c LVL pt st) as [st1|] eqn:Htp;
      cbn [mbind option_bind] in H; [| discriminate].
    rewrite (IH st1 st' H). apply (track_point_length LVL pt st st1 Htp).
Qed.

Lemma level_length (LVL : nat) (points : list point_t)
      (vs vs' : list flow_t) (cnt cnt' : Z) :
  level T c LVL points vs cnt = Some (vs', cnt') -> length vs' = length vs.
Proof.
  unfold level. intros H.
  destruct (point_loop T c LVL _ (mk_state vs 0 0)) as [st|] eqn:Hloop;
    cbn [mbind option_bind] in H; [| discriminate].
  injection H as <- <-. apply (point_loop_length _ _ _ _ Hloop).
Qed.

Lemma level_loop_length (LVL : nat) :
  forall (points : list point_t) (vs vs' : list flow_t) (cnt cnt' : Z),
    level_loop T c LVL points vs cnt = Some (vs', cnt') ->
    length vs' = length vs.
Proof.
  induction LVL as [|l IH]; intros points vs vs' cnt cnt' H;
    cbn [level_loop] in H;
    destruct (level T c _ points vs cnt) as [[vs1 cnt1]|] eqn:Hl;
    cbn [mbind option_bind fst snd] in H; try discriminate;
    apply level_length in Hl.
  - injection H as <- <-. exact Hl.
  - apply IH in H. lia.
Qed.

(** ** The returned array and count *)

(** X1: the returned array has [max_points] entries and the returned
    count is between 0 and [min(max_points, number of input points)], so
    the first [count] entries of the array exist. *)
Theorem returned_count_within_array
  (points : list point_t) (junk : flow_t) (vs : list flow_t) (cnt : Z)
  (Hmax : 0 <= max_points c < 2 ^ 16)
  (Hcall : opticFlowLK T c points junk = Some (vs, cnt)) :
  length vs = Z.to_nat (max_points c)
  /\ 0 <= cnt <= Z.min (max_points c) (Z.of_nat (length points))
  /\ forall j : nat, Z.of_nat j < cnt -> exists v, vs !! j = Some v.
Proof.
  assert (Hlen : length vs = Z.to_nat (max_points c)).
  { unfold opticFlowLK in Hcall.
    destruct (127 <? pyramid_level c); [discriminate |].
    apply level_loop_length in Hcall. rewrite Hcall. apply length_replicate. }
  pose proof (survivor_count_bounds T c points junk vs cnt Hmax Hcall) as Hb.
  split; [exact Hlen |]. split; [exact Hb |].
  intros j Hj. apply lookup_lt_is_Some_2. lia.
Qed.

(** ** When the call has a result *)

Lemma linearize_total (LVL : nat) (v : flow_t) :
  subpixel_factor c <> 0 -> exists L, linearize c LVL v = Some L.
Proof.
  intros Hsf. unfold linearize.
  destruct (image_gradients _) as [dx dy].
  destruct (image_calculate_g dx dy) as [[[g0 g1] g2] g3].
  unfold determinant. rewrite c_div_Some by exact Hsf.
  cbn [mbind option_bind]. eexists. reflexivity.
Qed.

Lemma track_point_total (LVL : nat) (pt : point_t) (st : state) :
  subpixel_factor c <> 0 -> exp c <> 0 ->
  (Z.to_nat (new_p st) < length (vectors st))%nat ->
  exists st', track_point T c LVL pt st = Some st'.
Proof.
  intros Hsf Hexp Hslot.
  destruct (lookup_lt_is_Some_2 _ _ Hslot) as [cur Hcur].
  assert (Hseed : exists s, seed_point T c LVL pt st = Some s).
  { unfold seed_point. rewrite Hcur.
    destruct (Z.of_nat LVL =? pyramid_level c).
    - destruct (input_outside_roi T c (pyramid_old c LVL) pt);
        [eexists; reflexivity |].
      rewrite !c_div_Some by exact Hexp. cbn [mbind option_bind].
      eexists. reflexivity.
    - cbn [mbind option_bind]. eexists. reflexivity. }
  destruct Hseed as [[v0|] Hseed]; unfold track_point; rewrite Hseed;
    cbn [mbind option_bind]; [| eexists; reflexivity].
  destruct (linearize_total LVL v0 Hsf) as [L ->]. cbn [mbind option_bind].
  destruct (Z.ltb_spec (Det L) 1); [eexists; reflexivity |].
  destruct (lk_iterate_total T c LVL L (Z.to_nat (max_iterations c)) Hsf
              ltac:(lia) 0 v0) as [r ->].
  cbn [mbind option_bind]. destruct (tracked r); eexists; reflexivity.
Qed.

Lemma point_loop_total (LVL : nat) (pts : list point_t) :
  subpixel_factor c <> 0 -> exp c <> 0 ->
  forall st : state,
    new_p st = points_cnt st -> 0 <= new_p st ->
    new_p st + Z.of_nat (length pts) <= Z.of_nat (length (vectors st)) ->
    Z.of_nat (length (vectors st)) < 2 ^ 16 ->
    exists st', point_loop T c LVL pts st = Some st'.
Proof.
  intros Hsf Hexp. induction pts as [|pt rest IH];
    intros st Hsync H0 Hroom Hlen; cbn [point_loop].
  - eexists. reflexivity.
  - cbn [length] in Hroom.
    destruct (track_point_total LVL pt st Hsf Hexp ltac:(lia)) as [st1 Htp].
    rewrite Htp. cbn [mbind option_bind].
    destruct (track_point_counts T c LVL pt st st1 Htp Hsync) as [Hs1 Hc1].
    pose proof (track_point_length LVL pt st st1 Htp) as Hl1.
    assert (Hstep : points_cnt st <= points_cnt st1 <= points_cnt st + 1).
    { destruct Hc1 as [-> | ->]; [lia |]. rewrite u16_small; lia. }
    apply IH; lia.
Qed.

Lemma level_total (LVL : nat) (points : list point_t)
      (vs : list flow_t) (cnt : Z) :
  subpixel_factor c <> 0 -> exp c <> 0 ->
  0 <= max_points c < 2 ^ 16 ->
  length vs = Z.to_nat (max_points c) ->
  exists res, level T c LVL points vs cnt = Some res.
Proof.
  intros Hsf Hexp Hmax Hlen. unfold level.
  destruct (point_loop_total LVL
              (take (Z.to_nat (Z.min (max_points c) cnt)) points) Hsf Hexp
              (mk_state vs 0 0)) as [st ->]; cbn; try lia.
  - rewrite length_take. lia.
  - eexists. reflexivity.
Qed.

Lemma level_loop_total (LVL : nat) :
  subpixel_factor c <> 0 -> exp c <> 0 ->
  0 <= max_points c < 2 ^ 16 ->
  forall (points : list point_t) (vs : list flow_t) (cnt : Z),
    length vs = Z.to_nat (max_points c) ->
    exists res, level_loop T c LVL points vs cnt = Some res.
Proof.
  intros Hsf Hexp Hmax. induction LVL as [|l IH]; intros points vs cnt Hlen;
    cbn [level_loop].
  - destruct (level_total 0 points vs cnt Hsf Hexp Hmax Hlen)
      as [[vs1 cnt1] Hl]; rewrite Hl; cbn [mbind option_bind fst snd].
    eexists. reflexivity.
  - destruct (level_total (S l) points vs cnt Hsf Hexp Hmax Hlen)
      as [[vs1 cnt1] Hl]; rewrite Hl; cbn [mbind option_bind fst snd].
    apply IH. apply level_length in Hl. lia.
Qed.

(** X2: with a nonzero [subpixel_factor], at most 7 pyramid levels above
    level 0 and [max_points] in the range of its type, the call has a
    result for every list of points: no division by zero is reached and
    no slot outside the array is used. *)
Theorem call_defined_for_nonzero_factor
  (points : list point_t) (junk : flow_t)
  (Hsf : subpixel_factor c <> 0)
  (Hpl : 0 <= pyramid_level c <= 7)
  (Hmax : 0 <= max_points c < 2 ^ 16) :
  exists (vs : list flow_t) (cnt : Z),
    opticFlowLK T c points junk = Some (vs, cnt).
Proof.
  unfold opticFlowLK.
  destruct (Z.ltb_spec 127 (pyramid_level c)); [lia |].
  destruct (exp_of_level_small (pyramid_level c) Hpl) as [_ Hexp].
  destruct (level_loop_total (Z.to_nat (pyramid_level c)) Hsf
              ltac:(unfold exp; lia) Hmax points
              (replicate (Z.to_nat (max_points c)) junk)
              (Z.of_nat (length points)) ltac:(apply length_replicate))
    as [[vs cnt] Hres].
  exists vs, cnt. exact Hres.
Qed.

(** ** A zero subpixel factor *)

Lemma track_point_zero_factor (LVL : nat) (pt : point_t) (st : state) :
  subpixel_factor c = 0 ->
  Z.of_nat LVL = pyramid_level c ->
  input_outside_roi T c (pyramid_old c LVL) pt = false ->
  track_point T c LVL pt st = None.
Proof.
  intros Hsf Hl Hroi. unfold track_point, seed_point.
  rewrite Hl, Z.eqb_refl, Hroi.
  destruct (vectors st !! Z.to_nat (new_p st)) as [cur|];
    cbn [mbind option_bind]; [| reflexivity].
  unfold c_div at 1 2. destruct (exp c =? 0);
    cbn [mbind option_bind]; [reflexivity |].
  unfold linearize. destruct (image_gradients _) as [dx dy].
  destruct (image_calculate_g dx dy) as [[[g0 g1] g2] g3].
  unfold determinant. rewrite Hsf, c_div_zero. reflexivity.
Qed.

Lemma point_loop_zero_factor (LVL : nat) (pts : list point_t) :
  subpixel_factor c = 0 ->
  Z.of_nat LVL = pyramid_level c ->
  Exists (fun pt => input_outside_roi T c (pyramid_old c LVL) pt = false) pts ->
  forall st : state, point_loop T c LVL pts st = None.
Proof.
  intros Hsf Hl. induction pts as [|pt rest IH]; intros Hex st.
  - inversion Hex.
  - cbn [point_loop].
    destruct (input_outside_roi T c (pyramid_old c LVL) pt) eqn:Hroi.
    + rewrite (track_point_rejects_outside T c LVL pt st Hl Hroi).
      cbn [mbind option_bind]. apply IH.
      inversion Hex as [? ? Hhead | ? ? Htail]; subst; [congruence | exact Htail].
    + rewrite (track_point_zero_factor LVL pt st Hsf Hl Hroi). reflexivity.
Qed.

(** X3: with [subpixel_factor = 0] and at most 7 pyramid levels above
    level 0, the seed of a point that passes the border test of the
    coarsest level is still defined, but the division by
    [subpixel_factor] in the computation of [Det] (line 163) has a zero
    divisor: the point has no result, and neither has the call as soon as
    one of the points it processes passes that test. *)
Theorem zero_subpixel_factor_divides_by_zero
  (points : list point_t) (junk : flow_t)
  (Hsf : subpixel_factor c = 0)
  (Hpl : 0 <= pyramid_level c <= 7)
  (Hmax : 0 <= max_points c)
  (Hpass : Exists
             (fun pt =>
                input_outside_roi T c
                  (pyramid_old c (Z.to_nat (pyramid_level c))) pt = false)
             (take (Z.to_nat (max_points c)) points)) :
  (forall G : Z * Z * Z * Z, determinant c G = None)
  /\ (forall (pt : point_t) (st : state) (cur : flow_t),
         vectors st !! Z.to_nat (new_p st) = Some cur ->
         input_outside_roi T c (pyramid_old c (Z.to_nat (pyramid_level c))) pt
         = false ->
         exists v0,
           seed_point T c (Z.to_nat (pyramid_level c)) pt st = Some (Some v0)
           /\ linearize c (Z.to_nat (pyramid_level c)) v0 = None
           /\ track_point T c (Z.to_nat (pyramid_level c)) pt st = None)
  /\ opticFlowLK T c points junk = None.
Proof.
  assert (HDet : forall G : Z * Z * Z * Z, determinant c G = None).
  { intros [[[g0 g1] g2] g3]. unfold determinant.
    rewrite Hsf, c_div_zero. reflexivity. }
  split; [exact HDet |]. split.
  - intros pt st cur Hslot Hroi.
    destruct (exp_of_level_small (pyramid_level c) Hpl) as [_ Hexp].
    pose proof (seed_point_coarsest T c pt st cur ltac:(lia) Hslot Hroi)
      as Hseed.
    unfold exp in Hseed. rewrite !c_div_Some in Hseed by lia.
    cbn [mbind option_bind] in Hseed.
    eexists. split; [exact Hseed |]. split.
    + unfold linearize. destruct (image_gradients _) as [dx dy].
      destruct (image_calculate_g dx dy) as [[[g0 g1] g2] g3].
      rewrite HDet. reflexivity.
    + apply track_point_zero_factor; [exact Hsf | lia | exact Hroi].
  - unfold opticFlowLK.
    destruct (Z.ltb_spec 127 (pyramid_level c)); [lia |].
    assert (Hlevel : forall vs,
               level T c (Z.to_nat (pyramid_level c)) points vs
                 (Z.of_nat (length points)) = None).
    { intros vs. unfold level. rewrite take_min_length by exact Hmax.
      rewrite point_loop_zero_factor;
        [reflexivity | exact Hsf | lia | exact Hpass]. }
    destruct (Z.to_nat (pyramid_level c)) as [|l]; cbn [level_loop];
      rewrite Hlevel; reflexivity.
Qed.

(** ** Calls that track nothing *)

Lemma point_loop_all_outside (LVL : nat) (pts : list point_t) :
  Z.of_nat LVL = pyramid_level c ->
  Forall (fun pt => input_outside_roi T c (pyramid_old c LVL) pt = true) pts ->
  forall st : state, point_loop T c LVL pts st = Some st.
Proof.
  intros Hl. induction pts as [|pt rest IH]; intros Hall st; [reflexivity |].
  inversion Hall as [| ? ? Hhead Htail]; subst. cbn [point_loop].
  rewrite (track_point_rejects_outside T c LVL pt st Hl Hhead).
  cbn [mbind option_bind]. apply IH. exact Htail.
Qed.

Lemma level_no_survivors (LVL : nat) (points : list point_t)
      (vs : list flow_t) (cnt : Z) :
  Z.min (max_points c) cnt <= 0 ->
  level T c LVL points vs cnt = Some (vs, 0).
Proof.
  intros Hn. unfold level.
  replace (Z.to_nat (Z.min (max_points c) cnt)) with 0%nat by lia.
  reflexivity.
Qed.

Lemma level_loop_no_survivors (LVL : nat) :
  forall (points : list point_t) (vs : list flow_t) (cnt : Z),
    cnt <= 0 -> level_loop T c LVL points vs cnt = Some (vs, 0).
Proof.
  induction LVL as [|l IH]; intros points vs cnt Hcnt; cbn [level_loop];
    rewrite level_no_survivors by lia; cbn [mbind option_bind fst snd];
    [reflexivity | apply IH; lia].
Qed.

(** X4: when every point the call processes fails the border test of
    the coarsest level (in particular when there is no point, or
    [max_points] is 0), the call returns the count 0 and leaves the
    array as it was allocated, for every pyramid depth up to 127 and
    every subpixel factor. *)
Theorem no_point_inside_returns_zero
  (points : list point_t) (junk : flow_t)
  (Hpl : 0 <= pyramid_level c <= 127)
  (Hmax : 0 <= max_points c)
  (Hall : Forall
            (fun pt =>
               input_outside_roi T c
                 (pyramid_old c (Z.to_nat (pyramid_level c))) pt = true)
            (take (Z.to_nat (max_points c)) points)) :
  opticFlowLK T c points junk
  = Some (replicate (Z.to_nat (max_points c)) junk, 0).
Proof.
  unfold opticFlowLK.
  destruct (Z.ltb_spec 127 (pyramid_level c)); [lia |].
  set (vs := replicate (Z.to_nat (max_points c)) junk).
  assert (Hlevel : level T c (Z.to_nat (pyramid_level c)) points vs
                     (Z.of_nat (length points)) = Some (vs, 0)).
  { unfold level. rewrite take_min_length by exact Hmax.
    rewrite point_loop_all_outside; [reflexivity | lia | exact Hall]. }
  destruct (Z.to_nat (pyramid_level c)) as [|l]; cbn [level_loop];
    rewrite Hlevel; cbn [mbind option_bind fst snd]; [reflexivity |].
  apply level_loop_no_survivors. lia.
Qed.

(** ** The cap [max_points] *)

Lemma level_take_max_points (LVL : nat) (points : list point_t)
      (vs : list flow_t) :
  0 <= max_points c ->
  level T c LVL points vs (Z.of_nat (length points)) =
  level T c LVL (take (Z.to_nat (max_points c)) points) vs
    (Z.of_nat (length (take (Z.to_nat (max_points c)) points))).
Proof.
  intros Hmax. unfold level. rewrite !take_min_length by exact Hmax.
  rewrite take_take, Nat.min_id. reflexivity.
Qed.

(** X5: only the first [max_points] points are processed: the call
    returns what it returns on the list cut after [max_points] points. *)
Theorem only_first_max_points_processed
  (points : list point_t) (junk : flow_t)
  (Hmax : 0 <= max_points c < 2 ^ 16) :
  opticFlowLK T c points junk
  = opticFlowLK T c (take (Z.to_nat (max_points c)) points) junk.
Proof.
  unfold opticFlowLK. destruct (127 <? pyramid_level c); [reflexivity |].
  set (vs := replicate (Z.to_nat (max_points c)) junk).
  set (cut := take (Z.to_nat (max_points c)) points).
  assert (Hlen : (length cut <= length points)%nat).
  { unfold cut. rewrite length_take. lia. }
  destruct (Z.to_nat (pyramid_level c)) as [|l] eqn:El; cbn [level_loop];
    rewrite (level_take_max_points _ points vs) by lia; fold cut;
    [reflexivity |].
  destruct (level T c (S l) cut vs (Z.of_nat (length cut)))
    as [[vs1 cnt1]|] eqn:Hlev; cbn [mbind option_bind fst snd];
    [| reflexivity].
  pose proof (level_counts T c (S l) cut vs vs1 (Z.of_nat (length cut)) cnt1
                Hmax ltac:(lia) Hlev) as [Hb Hb'].
  apply level_loop_finer_any_points; lia.
Qed.

(** ** Positions *)

(** X6: the refinement of a point never moves its position: whatever
    the outcome, slot [new_p] afterwards holds a vector with the position
    the point was seeded with (only the flow differs). *)
Theorem tracked_vector_keeps_seed_position
  (LVL : nat) (pt : point_t) (st st' : state) (v0 : flow_t)
  (Htp : track_point T c LVL pt st = Some st')
  (Hseed : seed_point T c LVL pt st = Some (Some v0)) :
  exists v,
    vectors st' !! Z.to_nat (new_p st) = Some v /\ pos v = pos v0.
Proof.
  pose proof (seed_point_slot LVL pt st v0 Hseed) as Hslot.
  destruct (track_point_shape LVL pt st st' Htp)
    as [[Hnone _] | (v0' & v & Hseed' & Hpos & Hvs & _)]; [congruence |].
  assert (v0' = v0) by congruence. subst v0'.
  exists v. split; [| exact Hpos].
  rewrite Hvs. apply list_lookup_insert_eq. exact Hslot.
Qed.

(** ** Slots a level leaves alone *)

Lemma point_loop_untouched (LVL : nat) (pts : list point_t) :
  forall st st' : state,
    point_loop T c LVL pts st = Some st' ->
    new_p st = points_cnt st -> 0 <= new_p st ->
    new_p st + Z.of_nat (length pts) < 2 ^ 16 ->
    forall j : nat,
      new_p st + Z.of_nat (length pts) <= Z.of_nat j ->
      vectors st' !! j = vectors st !! j.
Proof.
  induction pts as [|pt rest IH]; intros st st' H Hsync H0 Hlen j Hj;
    cbn [point_loop] in H.
  - injection H as <-. reflexivity.
  - cbn [length] in Hlen, Hj.
    destruct (track_point T c LVL pt st) as [st1|] eqn:Htp;
      cbn [mbind option_bind] in H; [| discriminate].
    destruct (track_point_counts T c LVL pt st st1 Htp Hsync) as [Hs1 Hc1].
    assert (Hstep : points_cnt st <= points_cnt st1 <= points_cnt st + 1).
    { destruct Hc1 as [-> | ->]; [lia |]. rewrite u16_small; lia. }
    rewrite (IH st1 st' H Hs1) by lia.
    destruct (track_point_shape LVL pt st st1 Htp)
      as [[_ ->] | (v0 & v & _ & _ & Hvs & _)]; [reflexivity |].
    rewrite Hvs. apply list_lookup_insert_ne. lia.
Qed.

(** ** What the counted slots hold *)

(** If every seed of the level has a position in [Q], the slots below
    [new_p] hold positions in [Q] when the point loop ends. *)
Lemma point_loop_slots (Q : point_t -> Prop) (LVL : nat) (pts : list point_t) :
  (forall (pt : point_t) (st : state) (v0 : flow_t),
      pt ∈ pts -> seed_point T c LVL pt st = Some (Some v0) -> Q (pos v0)) ->
  forall st st' : state,
    point_loop T c LVL pts st = Some st' ->
    new_p st = points_cnt st -> 0 <= new_p st ->
    new_p st + Z.of_nat (length pts) < 2 ^ 16 ->
    (forall j : nat, Z.of_nat j < new_p st ->
                     exists v, vectors st !! j = Some v /\ Q (pos v)) ->
    forall j : nat, Z.of_nat j < new_p st' ->
                    exists v, vectors st' !! j = Some v /\ Q (pos v).
Proof.
  induction pts as [|pt rest IH]; intros Hseeds st st' H Hsync H0 Hlen Hinv;
    cbn [point_loop] in H.
  - injection H as <-. exact Hinv.
  - cbn [length] in Hlen.
    destruct (track_point T c LVL pt st) as [st1|] eqn:Htp;
      cbn [mbind option_bind] in H; [| discriminate].
    destruct (track_point_counts T c LVL pt st st1 Htp Hsync) as [Hs1 Hc1].
    assert (Hstep : points_cnt st <= points_cnt st1 <= points_cnt st + 1).
    { destruct Hc1 as [-> | ->]; [lia |]. rewrite u16_small; lia. }
    apply (IH (fun pt' st0 v0 Hin => Hseeds pt' st0 v0
                 (proj2 (elem_of_cons _ _ _) (or_intror Hin)))
             st1 st' H Hs1); try lia.
    destruct (track_point_shape LVL pt st st1 Htp)
      as [[_ ->] | (v0 & v & Hseed & Hpos & Hvs & _)]; [exact Hinv |].
    intros j Hj. rewrite Hvs.
    destruct (decide (j = Z.to_nat (new_p st))) as [-> | Hne].
    + exists v. split.
      * apply list_lookup_insert_eq. apply (seed_point_slot LVL pt st v0 Hseed).
      * rewrite Hpos. apply (Hseeds pt st v0); [| exact Hseed].
        apply elem_of_cons. left. reflexivity.
    + rewrite list_lookup_insert_ne by (intros Heq; apply Hne; symmetry; exact Heq).
      apply Hinv. lia.
Qed.

Lemma level_slots (Q : point_t -> Prop) (LVL : nat) (points : list point_t)
      (vs vs' : list flow_t) (cnt cnt' : Z) :
  0 <= max_points c < 2 ^ 16 ->
  (forall (pt : point_t) (st : state) (v0 : flow_t),
      pt ∈ take (Z.to_nat (max_points c)) points ->
      seed_point T c LVL pt st = Some (Some v0) -> Q (pos v0)) ->
  level T c LVL points vs cnt = Some (vs', cnt') ->
  forall j : nat, Z.of_nat j < cnt' ->
                  exists v, vs' !! j = Some v /\ Q (pos v).
Proof.
  intros Hmax Hseeds Hlevel. unfold level in Hlevel.
  set (pts := take (Z.to_nat (Z.min (max_points c) cnt)) points) in Hlevel.
  destruct (point_loop T c LVL pts (mk_state vs 0 0)) as [st|] eqn:Hloop;
    cbn [mbind option_bind] in Hlevel; [| discriminate].
  injection Hlevel as <- <-.
  assert (Hlen : Z.of_nat (length pts) < 2 ^ 16).
  { unfold pts. rewrite length_take. lia. }
  destruct (point_loop_counts T c LVL pts _ _ Hloop eq_refl
              ltac:(cbn; lia) ltac:(cbn; lia)) as [Hsync _].
  rewrite <- Hsync.
  apply (point_loop_slots Q LVL pts) with (st := mk_state vs 0 0);
    try assumption; cbn; try lia.
  intros pt st0 v0 Hin. apply Hseeds.
  unfold pts in Hin. apply elem_of_take in Hin as (i & Hi & Hlt).
  apply elem_of_take. exists i. split; [exact Hi | lia].
Qed.

Lemma level_loop_ends_at_zero (LVL : nat) :
  forall (points : list point_t) (vs : list flow_t) (cnt : Z)
         (res : list flow_t * Z),
    level_loop T c LVL points vs cnt = Some res ->
    exists vs0 cnt0, level T c 0 points vs0 cnt0 = Some res.
Proof.
  induction LVL as [|l IH]; intros points vs cnt res H; cbn [level_loop] in H;
    destruct (level T c _ points vs cnt) as [[vs1 cnt1]|] eqn:Hl;
    cbn [mbind option_bind fst snd] in H; try discriminate.
  - injection H as <-. exists vs, cnt. exact Hl.
  - apply (IH _ _ _ _ H).
Qed.

Lemma ucoord_double_even (a : Z) : Z.even (ucoord T (2 * a)) = true.
Proof.
  unfold ucoord, uwrap. destruct (coord_w T); cbn [bits].
  - change (2 ^ 16) with (2 * 2 ^ 15). rewrite Zmult_mod_distr_l.
    rewrite Z.even_mul. reflexivity.
  - change (2 ^ 32) with (2 * 2 ^ 31). rewrite Zmult_mod_distr_l.
    rewrite Z.even_mul. reflexivity.
Qed.

Lemma seed_point_finer_even (LVL : nat) (pt : point_t) (st : state)
      (v0 : flow_t) :
  Z.of_nat LVL <> pyramid_level c ->
  seed_point T c LVL pt st = Some (Some v0) -> even_position (pos v0).
Proof.
  intros Hl Hseed. unfold seed_point in Hseed.
  destruct (Z.eqb_spec (Z.of_nat LVL) (pyramid_level c)); [contradiction |].
  destruct (vectors st !! Z.to_nat (new_p st)) as [cur|];
    cbn [mbind option_bind] in Hseed; [| discriminate].
  injection Hseed as <-. split; apply ucoord_double_even.
Qed.

(** X8: with at least one pyramid level above level 0, every vector the
    call returns has an even position in both coordinates: the last
    level stores the double of a coordinate, and the refinement does not
    move it. *)
Theorem returned_positions_are_even
  (points : list point_t) (junk : flow_t) (vs : list flow_t) (cnt : Z)
  (Hpl : 1 <= pyramid_level c)
  (Hmax : 0 <= max_points c < 2 ^ 16)
  (Hcall : opticFlowLK T c points junk = Some (vs, cnt)) :
  forall j : nat,
    Z.of_nat j < cnt ->
    exists v,
      vs !! j = Some v
      /\ Z.even (p_x (pos v)) = true /\ Z.even (p_y (pos v)) = true.
Proof.
  unfold opticFlowLK in Hcall.
  destruct (127 <? pyramid_level c); [discriminate |].
  apply level_loop_ends_at_zero in Hcall as (vs0 & cnt0 & Hlevel).
  apply (level_slots even_position 0 points vs0 vs cnt0 cnt Hmax);
    [| exact Hlevel].
  intros pt st v0 _. apply seed_point_finer_even. cbn. lia.
Qed.

(** X9: with a single level ([pyramid_level = 0]) every vector the call
    returns has the position [coordinate * subpixel_factor] (in 32 bits,
    stored in the coordinate field) of one of the first [max_points]
    input points, and that point passed the border test. *)
Theorem single_level_positions_come_from_input
  (points : list point_t) (junk : flow_t) (vs : list flow_t) (cnt : Z)
  (Hpl : pyramid_level c = 0)
  (Hmax : 0 <= max_points c < 2 ^ 16)
  (Hcall : opticFlowLK T c points junk = Some (vs, cnt)) :
  forall j : nat,
    Z.of_nat j < cnt ->
    exists v pt,
      vs !! j = Some v
      /\ pt ∈ take (Z.to_nat (max_points c)) points
      /\ input_outside_roi T c (pyramid_old c 0) pt = false
      /\ pos v = mk_point (ucoord T (u32 (p_x pt * subpixel_factor c)))
                          (ucoord T (u32 (p_y pt * subpixel_factor c))).
Proof.
  unfold opticFlowLK in Hcall.
  destruct (127 <? pyramid_level c); [discriminate |].
  rewrite Hpl in Hcall. change (Z.to_nat 0) with 0%nat in Hcall.
  cbn [level_loop] in Hcall.
  set (vs0 := replicate (Z.to_nat (max_points c)) junk) in Hcall.
  destruct (level T c 0 points vs0 (Z.of_nat (length points)))
    as [[vs1 cnt1]|] eqn:Hlevel;
    cbn [mbind option_bind] in Hcall; [| discriminate].
  injection Hcall as <- <-.
  set (Q := fun p : point_t =>
              exists pt,
                pt ∈ take (Z.to_nat (max_points c)) points
                /\ input_outside_roi T c (pyramid_old c 0) pt = false
                /\ p = mk_point (ucoord T (u32 (p_x pt * subpixel_factor c)))
                                (ucoord T (u32 (p_y pt * subpixel_factor c)))).
  intros j Hj.
  destruct (level_slots Q 0 points vs0 vs1 (Z.of_nat (length points)) cnt1
              Hmax) with (j := j)
    as (v & Hv & pt & Hin & Hroi & Hp); [| exact Hlevel | exact Hj |].
  - intros pt st v0 Hin Hseed. exists pt. split; [exact Hin |].
    unfold seed_point in Hseed. rewrite Hpl in Hseed. cbn [Z.of_nat Z.eqb] in Hseed.
    destruct (input_outside_roi T c (pyramid_old c 0) pt); [discriminate |].
    split; [reflexivity |].
    destruct (vectors st !! Z.to_nat (new_p st)) as [cur|];
      cbn [mbind option_bind] in Hseed; [| discriminate].
    assert (He : exp c = 1) by (unfold exp; rewrite Hpl; reflexivity).
    rewrite He, !c_div_Some in Hseed by lia.
    cbn [mbind option_bind] in Hseed. rewrite !Z.quot_1_r in Hseed.
    injection Hseed as <-. reflexivity.
  - exists v, pt. auto.
Qed.

(** ** The degeneracy test within the 32-bit range *)

Lemma quot_lt_one (a s : Z) : 0 < s -> (Z.quot a s < 1 <-> a < s).
Proof.
  intros Hs. split.
  - intros Hq. destruct (Z.lt_ge_cases a s) as [Hlt | Hge]; [exact Hlt |].
    assert (1 <= Z.quot a s) by (apply Z.quot_le_lower_bound; lia). lia.
  - intros Ha. destruct (Z.le_gt_cases 0 a).
    + rewrite Z.quot_small; lia.
    + assert (Z.quot a s <= 0) by (apply Z.quot_le_upper_bound; lia). lia.
Qed.

(** X10: when the product [G[1] * G[2]] and the scaled determinant fit in
    32 bits, [Det] is [(G[0] * G[3] - G[1] * G[2]) / subpixel_factor] and
    the window counts as degenerate exactly when
    [G[0] * G[3] - G[1] * G[2] < subpixel_factor]; the point is then left
    out with its seed in the slot and no refinement. *)
Theorem degeneracy_test_within_range
  (LVL : nat) (pt : point_t) (st : state) (v0 : flow_t) (L : lin)
  (g0 g1 g2 g3 : Z)
  (Hseed : seed_point T c LVL pt st = Some (Some v0))
  (Hlin : linearize c LVL v0 = Some L)
  (HG : G L = (g0, g1, g2, g3))
  (Hsf : 0 < subpixel_factor c)
  (H12 : in_s32 (g1 * g2))
  (Hq : in_s32 (Z.quot (g0 * g3 - g1 * g2) (subpixel_factor c))) :
  Det L = Z.quot (g0 * g3 - g1 * g2) (subpixel_factor c)
  /\ (Det L < 1 <-> g0 * g3 - g1 * g2 < subpixel_factor c)
  /\ (g0 * g3 - g1 * g2 < subpixel_factor c ->
      track_point T c LVL pt st =
        Some (mk_state (<[Z.to_nat (new_p st) := v0]> (vectors st))
                       (new_p st) (points_cnt st))).
Proof.
  assert (HDet : Det L = Z.quot (g0 * g3 - g1 * g2) (subpixel_factor c)).
  { unfold linearize in Hlin.
    destruct (image_gradients _) as [dx dy].
    destruct (image_calculate_g dx dy) as [[[z0 z1] z2] z3].
    destruct (determinant c (s32 z0, s32 z1, s32 z2, s32 z3)) as [d|] eqn:Hd;
      cbn [mbind option_bind] in Hlin; [| discriminate].
    injection Hlin as <-. cbn [G Det] in HG |- *.
    injection HG as <- <- <- <-.
    rewrite determinant_in_range in Hd; try assumption; try apply s32_range;
      [| lia].
    injection Hd as <-. reflexivity. }
  split; [exact HDet |].
  assert (Hiff : Det L < 1 <-> g0 * g3 - g1 * g2 < subpixel_factor c).
  { rewrite HDet. apply quot_lt_one. exact Hsf. }
  split; [exact Hiff |].
  intros Hsmall. apply Hiff in Hsmall.
  unfold track_point. rewrite Hseed. cbn [mbind option_bind].
  rewrite Hlin. cbn [mbind option_bind].
  destruct (Z.ltb_spec (Det L) 1); [reflexivity | lia].
Qed.

(** ** When the residual can reject *)

Lemma lk_step_high_residual (LVL : nat) (L : lin) (it : Z) (v : flow_t) :
  lk_step T c LVL L it v = Some (IterReject HighResidual) ->
  max_iterations c / 2 < it.
Proof.
  rewrite lk_step_cases.
  destruct (candidate_outside_roi c (pyramid_old c LVL) (candidate T v))
    as [[|]|]; try discriminate.
  unfold residual_too_large.
  destruct (error_threshold c <? _); cbn [andb].
  - destruct (Z.ltb_spec (max_iterations c / 2) it); [intros _; assumption |].
    intros Hs. exfalso. exact (solve_step_is_step T _ _ _ _ Hs).
  - intros Hs. exfalso. exact (solve_step_is_step T _ _ _ _ Hs).
Qed.

Lemma lk_iterate_high_residual_late (LVL : nat) (L : lin) (fuel : nat) :
  forall (it : Z) (v : flow_t) (r : refine_result),
    lk_iterate T c LVL L fuel it v = Some r ->
    exit_by r = Rejected HighResidual ->
    max_iterations c / 2 < it + Z.of_nat (iterations r) - 1.
Proof.
  induction fuel as [|fuel IH]; intros it v r Hr Hex; cbn [lk_iterate] in Hr.
  - injection Hr as <-. discriminate.
  - destruct (lk_step T c LVL L it v) as [[why | v' sx sy]|] eqn:Hstep;
      cbn [mbind option_bind] in Hr; [| | discriminate].
    + injection Hr as <-. cbn in Hex |- *. injection Hex as ->.
      apply lk_step_high_residual in Hstep. lia.
    + destruct (converged c sx sy).
      * injection Hr as <-. discriminate.
      * destruct (lk_iterate T c LVL L fuel (it + 1) v') as [res|] eqn:Hres;
          cbn [mbind option_bind] in Hr; [| discriminate].
        injection Hr as <-. cbn in Hex |- *.
        pose proof (IH _ _ _ Hres Hex). lia.
Qed.

(** X11: a point is rejected for its residual only in pass number
    [max_iterations / 2 + 2] or later; with fewer than three iterations
    allowed the residual never rejects a point. *)
Theorem residual_rejection_is_late
  (LVL : nat) (L : lin) (v : flow_t) (r : refine_result)
  (Hloop : lk_iterate T c LVL L (Z.to_nat (max_iterations c)) 0 v = Some r)
  (Hexit : exit_by r = Rejected HighResidual) :
  max_iterations c / 2 + 2 <= Z.of_nat (iterations r)
  /\ 3 <= max_iterations c.
Proof.
  pose proof (lk_iterate_high_residual_late LVL L _ 0 v r Hloop Hexit) as Hlate.
  destruct (lk_iterate_exit T c LVL L _ 0 v r Hloop) as (Hle & _ & _).
  split; [lia |].
  destruct (Z.to_nat (max_iterations c)) as [|n] eqn:En.
  - cbn [lk_iterate] in Hloop. injection Hloop as <-. discriminate.
  - Z.to_euclidean_division_equations. lia.
Qed.

(** ** The border at the coarsest level, in full-resolution pixels *)

Lemma ucoord_le (z : Z) : 0 <= z -> 0 <= ucoord T z <= z.
Proof.
  intros Hz. unfold ucoord, uwrap.
  assert (0 < 2 ^ bits (coord_w T)) by (destruct (coord_w T); reflexivity).
  split; [apply Z.mod_pos_bound; lia | apply Z.mod_le; lia].
Qed.

Lemma seed_quotient_small (x e : Z) :
  0 <= x -> 0 < subpixel_factor c -> 0 < e ->
  x < half_window_size c * e ->
  Z.quot (ucoord T (ucoord T (Z.quot (u32 (x * subpixel_factor c)) e) + 0))
    (subpixel_factor c)
  < half_window_size c.
Proof.
  intros Hx Hsf He Hsmall.
  assert (Ha : 0 <= u32 (x * subpixel_factor c) <= x * subpixel_factor c).
  { unfold u32, uwrap. split; [apply Z.mod_pos_bound; lia |].
    apply Z.mod_le; nia. }
  set (a := u32 (x * subpixel_factor c)) in *.
  assert (Hq : 0 <= Z.quot a e < half_window_size c * subpixel_factor c).
  { rewrite Z.quot_div_nonneg by lia. split; [apply Z.div_pos; lia |].
    apply Z.div_lt_upper_bound; [lia |]. nia. }
  pose proof (ucoord_le (Z.quot a e) ltac:(lia)) as H1.
  rewrite Z.add_0_r.
  pose proof (ucoord_le (ucoord T (Z.quot a e)) ltac:(lia)) as H2.
  rewrite Z.quot_div_nonneg by lia.
  apply Z.div_lt_upper_bound; [lia |]. lia.
Qed.

(** X12: at pyramid depth [L] (at most 7) with at least one iteration
    allowed, a point with [x < half_window_size * 2 ^ L] or
    [y < half_window_size * 2 ^ L] is never counted at the coarsest
    level: if the test on the input point lets it through, its first
    candidate, at [x / 2 ^ L], fails the test of the region of interest
    of that level. *)
Theorem points_near_origin_never_counted
  (pt : point_t) (st : state) (cur : flow_t)
  (Hpl : 0 <= pyramid_level c <= 7)
  (Hsf : 0 < subpixel_factor c)
  (Hit : 1 <= max_iterations c)
  (Hx : 0 <= p_x pt) (Hy : 0 <= p_y pt)
  (Hnear : p_x pt < half_window_size c * 2 ^ pyramid_level c
           \/ p_y pt < half_window_size c * 2 ^ pyramid_level c)
  (Hslot : vectors st !! Z.to_nat (new_p st) = Some cur) :
  exists st',
    track_point T c (Z.to_nat (pyramid_level c)) pt st = Some st'
    /\ new_p st' = new_p st /\ points_cnt st' = points_cnt st.
Proof.
  set (LVL := Z.to_nat (pyramid_level c)).
  assert (HL : Z.of_nat LVL = pyramid_level c) by (unfold LVL; lia).
  destruct (input_outside_roi T c (pyramid_old c LVL) pt) eqn:Hroi.
  { exists st. split; [| split; reflexivity].
    apply track_point_rejects_outside; assumption. }
  destruct (exp_of_level_small (pyramid_level c) Hpl) as [He Hp].
  unfold track_point.
  pose proof (seed_point_coarsest T c pt st cur ltac:(lia) Hslot Hroi) as Hs.
  fold LVL in Hs. rewrite Hs.
  unfold exp. rewrite !c_div_Some by lia. cbn [mbind option_bind].
  set (v0 := mk_flow _ 0 0).
  destruct (linearize_total LVL v0 ltac:(lia)) as [L ->].
  cbn [mbind option_bind].
  destruct (Det L <? 1).
  { eexists. split; [reflexivity |]. cbn. split; reflexivity. }
  destruct (Z.to_nat (max_iterations c)) as [|fuel] eqn:Efuel; [lia |].
  cbn [lk_iterate]. rewrite lk_step_cases.
  assert (Hout : candidate_outside_roi c (pyramid_old c LVL) (candidate T v0)
                 = Some true).
  { unfold candidate_outside_roi, candidate, v0. cbn [pos p_x p_y flow_x flow_y].
    rewrite !c_div_Some by lia. cbn [mbind option_bind]. f_equal.
    rewrite He. apply orb_true_iff.
    destruct Hnear as [Hn | Hn].
    - left. apply orb_true_iff. left. apply orb_true_iff. left.
      apply Z.ltb_lt. apply seed_quotient_small; lia.
    - left. apply orb_true_iff. right.
      apply Z.ltb_lt. apply seed_quotient_small; lia. }
  rewrite Hout. cbn [mbind option_bind tracked].
  eexists. split; [reflexivity |]. cbn. split; reflexivity.
Qed.

(** ** Window sizes *)

Lemma u16_odd (z : Z) : Z.odd (u16 z) = Z.odd z.
Proof.
  unfold u16, uwrap. rewrite <- !Z.bit0_odd.
  apply Z.mod_pow2_bits_low. lia.
Qed.

(** X13: the tracking window always has a centre pixel: [patch_size] and
    [padded_patch_size] are odd for every [half_window_size], and up to
    [half_window_size = 32766] they are [2 * half_window_size + 1] and
    [2 * half_window_size + 3]. *)
Theorem window_sizes_are_odd :
  Z.odd (patch_size c) = true
  /\ Z.odd (padded_patch_size c) = true
  /\ (0 <= half_window_size c <= 32766 ->
      patch_size c = 2 * half_window_size c + 1
      /\ padded_patch_size c = 2 * half_window_size c + 3).
Proof.
  assert (Hp : Z.odd (patch_size c) = true).
  { unfold patch_size. rewrite u16_odd, Z.add_comm, Z.odd_add_mul_2.
    reflexivity. }
  split; [exact Hp |]. split.
  - unfold padded_patch_size. rewrite u16_odd.
    replace (patch_size c + 2) with (patch_size c + 2 * 1) by lia.
    rewrite Z.odd_add_mul_2. exact Hp.
  - intros Hh. unfold padded_patch_size. rewrite patch_size_exact by lia.
    split; [reflexivity |]. rewrite u16_small; lia.
Qed.

(** ** A pass without mismatch *)

(** X14: when both products of the difference image with the gradients
    are 0 (the windows agree), a pass that is not rejected computes the
    step (0, 0), leaves the flow as it is and ends the loop as converged,
    for every [step_threshold] from 1 on. *)
Theorem zero_mismatch_converges_at_once
  (LVL : nat) (L : lin) (fuel : nat) (it : Z) (v : flow_t)
  (Hroi : candidate_outside_roi c (pyramid_old c LVL) (candidate T v)
          = Some false)
  (Hres : residual_too_large c
            (u32 (compare_windows c LVL L (candidate T v)).1) it = false)
  (Hmx : image_multiply (compare_windows c LVL L (candidate T v)).2
           (window_DX L) = 0)
  (Hmy : image_multiply (compare_windows c LVL L (candidate T v)).2
           (window_DY L) = 0)
  (HDet : Det L <> 0)
  (Hst : 1 <= step_threshold c)
  (Hfx : - 2 ^ (bits (flow_w T) - 1) <= flow_x v < 2 ^ (bits (flow_w T) - 1))
  (Hfy : - 2 ^ (bits (flow_w T) - 1) <= flow_y v < 2 ^ (bits (flow_w T) - 1)) :
  lk_step T c LVL L it v = Some (IterStep v 0 0)
  /\ lk_iterate T c LVL L (S fuel) it v = Some (mk_refine true v 1 Converged).
Proof.
  assert (Hstep : lk_step T c LVL L it v = Some (IterStep v 0 0)).
  { rewrite lk_step_cases, Hroi, Hres. unfold solve_step, mismatch.
    rewrite Hmx, Hmy. destruct (G L) as [[[g0 g1] g2] g3].
    change (s32 (Z.quot (s32 0) 255)) with 0. rewrite !Z.mul_0_r.
    change (s32 (s32 0 - s32 0)) with 0.
    rewrite !c_div_Some by exact HDet. cbn [mbind option_bind].
    rewrite !Z.quot_0_l by exact HDet. change (s32 0) with 0.
    rewrite !Z.add_0_r.
    rewrite !s32_small by (apply (flow_range_s32 T); assumption).
    rewrite !(sflow_small T) by assumption.
    destruct v as [p fx fy]. reflexivity. }
  split; [exact Hstep |].
  cbn [lk_iterate]. rewrite Hstep. cbn [mbind option_bind].
  assert (Hc : converged c 0 0 = true).
  { unfold converged. change (s32 (c_abs 0 + c_abs 0)) with 0.
    apply Z.ltb_lt. lia. }
  rewrite Hc. reflexivity.
Qed.

(** ** Pyramids of eight levels and more *)

Lemma track_point_zero_exp (LVL : nat) (pt : point_t) (st : state) :
  exp c = 0 ->
  Z.of_nat LVL = pyramid_level c ->
  input_outside_roi T c (pyramid_old c LVL) pt = false ->
  track_point T c LVL pt st = None.
Proof.
  intros He Hl Hroi. unfold track_point, seed_point.
  rewrite Hl, Z.eqb_refl, Hroi, He.
  destruct (vectors st !! Z.to_nat (new_p st)) as [cur|]; reflexivity.
Qed.

Lemma point_loop_zero_exp (LVL : nat) (pts : list point_t) :
  exp c = 0 ->
  Z.of_nat LVL = pyramid_level c ->
  Exists (fun pt => input_outside_roi T c (pyramid_old c LVL) pt = false) pts ->
  forall st : state, point_loop T c LVL pts st = None.
Proof.
  intros He Hl. induction pts as [|pt rest IH]; intros Hex st.
  - inversion Hex.
  - cbn [point_loop].
    destruct (input_outside_roi T c (pyramid_old c LVL) pt) eqn:Hroi.
    + rewrite (track_point_rejects_outside T c LVL pt st Hl Hroi).
      cbn [mbind option_bind]. apply IH.
      inversion Hex as [? ? Hhead | ? ? Htail]; subst; [congruence | exact Htail].
    + rewrite (track_point_zero_exp LVL pt st He Hl Hroi). reflexivity.
Qed.

(** X15: for every [pyramid_level] from 8 to 127 the divisor [exp] is 0:
    the seed of a point that passes the border test of the coarsest
    level divides by zero (line 139), and the call has no result as soon
    as one of the points it processes passes that test. *)
Theorem deep_pyramid_divides_by_zero
  (points : list point_t) (junk : flow_t)
  (Hpl : 8 <= pyramid_level c <= 127)
  (Hmax : 0 <= max_points c)
  (Hpass : Exists
             (fun pt =>
                input_outside_roi T c
                  (pyramid_old c (Z.to_nat (pyramid_level c))) pt = false)
             (take (Z.to_nat (max_points c)) points)) :
  exp c = 0
  /\ (forall a : Z, c_div a (exp c) = None)
  /\ (forall (pt : point_t) (st : state) (cur : flow_t),
         vectors st !! Z.to_nat (new_p st) = Some cur ->
         input_outside_roi T c (pyramid_old c (Z.to_nat (pyramid_level c))) pt
         = false ->
         seed_point T c (Z.to_nat (pyramid_level c)) pt st = None)
  /\ opticFlowLK T c points junk = None.
Proof.
  assert (He : exp c = 0) by (unfold exp; apply exp_of_level_large; lia).
  split; [exact He |]. split; [intros a; rewrite He; reflexivity |]. split.
  - intros pt st cur Hslot Hroi.
    rewrite (seed_point_coarsest T c pt st cur ltac:(lia) Hslot Hroi).
    rewrite He. reflexivity.
  - unfold opticFlowLK.
    destruct (Z.ltb_spec 127 (pyramid_level c)); [lia |].
    assert (Hlevel : forall vs,
               level T c (Z.to_nat (pyramid_level c)) points vs
                 (Z.of_nat (length points)) = None).
    { intros vs. unfold level. rewrite take_min_length by exact Hmax.
      rewrite point_loop_zero_exp;
        [reflexivity | exact He | lia | exact Hpass]. }
    destruct (Z.to_nat (pyramid_level c)) as [|l]; cbn [level_loop];
      rewrite Hlevel; reflexivity.
Qed.

End CallProperties.

(** * The contents of the fresh array *)

Section Allocation.
Context `{IL : ImageLib}.
Variable T : header.
Variable c : call.

Lemma same_upto_weaken (P Q : nat -> Prop) (st1 st2 : state) :
  (forall j, Q j -> P j) -> same_upto P st1 st2 -> same_upto Q st1 st2.
Proof.
  intros HQP (Hn & Hc & Hl & Hv). repeat split; try assumption.
  intros j Hj. apply Hv, HQP, Hj.
Qed.

Lemma same_upto_insert (P : nat -> Prop) (st1 st2 : state) (v : flow_t)
      (np1 np2 c1 c2 : Z) :
  same_upto P st1 st2 -> np1 = np2 -> c1 = c2 ->
  (Z.to_nat (new_p st1) < length (vectors st1))%nat ->
  same_upto (fun j => P j \/ j = Z.to_nat (new_p st1))
    (mk_state (<[Z.to_nat (new_p st1) := v]> (vectors st1)) np1 c1)
    (mk_state (<[Z.to_nat (new_p st2) := v]> (vectors st2)) np2 c2).
Proof.
  intros (Hn & Hc & Hl & Hv) -> -> Hslot. rewrite <- Hn.
  repeat split; cbn; [rewrite !length_insert; exact Hl |].
  intros j Hj.
  destruct (decide (j = Z.to_nat (new_p st1))) as [-> | Hne].
  - rewrite !list_lookup_insert_eq by lia. reflexivity.
  - rewrite !list_lookup_insert_ne
      by (intros Heq; apply Hne; symmetry; exact Heq).
    destruct Hj as [Hj | Hj]; [apply Hv, Hj | contradiction].
Qed.

Lemma track_point_same (P : nat -> Prop) (LVL : nat) (pt : point_t)
      (st1 st2 : state) :
  same_upto P st1 st2 ->
  seed_point T c LVL pt st1 = seed_point T c LVL pt st2 ->
  same_option
    (fun a b =>
       same_upto P a b
       /\ (new_p a <> new_p st1 ->
           vectors a !! Z.to_nat (new_p st1)
           = vectors b !! Z.to_nat (new_p st1)))
    (track_point T c LVL pt st1) (track_point T c LVL pt st2).
Proof.
  intros Hsame Hseed.
  assert (Hins : forall v np1 np2 c1 c2,
             np1 = np2 -> c1 = c2 ->
             (Z.to_nat (new_p st1) < length (vectors st1))%nat ->
             let a := mk_state (<[Z.to_nat (new_p st1) := v]> (vectors st1))
                        np1 c1 in
             let b := mk_state (<[Z.to_nat (new_p st2) := v]> (vectors st2))
                        np2 c2 in
             same_upto P a b
             /\ (new_p a <> new_p st1 ->
                 vectors a !! Z.to_nat (new_p st1)
                 = vectors b !! Z.to_nat (new_p st1))).
  { intros v np1 np2 c1 c2 Hnp Hcc Hslot a b.
    pose proof (same_upto_insert P st1 st2 v np1 np2 c1 c2 Hsame Hnp Hcc Hslot)
      as Hboth.
    split.
    - apply (same_upto_weaken _ P) with (2 := Hboth). intros j Hj. left.
      exact Hj.
    - intros _. destruct Hboth as (_ & _ & _ & Hv). apply Hv. right.
      reflexivity. }
  unfold track_point. rewrite <- Hseed.
  destruct (seed_point T c LVL pt st1) as [[v0|]|] eqn:Hs;
    cbn [mbind option_bind same_option]; [| | exact I].
  - pose proof (seed_point_slot T c LVL pt st1 v0 Hs) as Hslot.
    pose proof Hsame as (Hn & Hc & _ & _).
    destruct (linearize c LVL v0) as [L|];
      cbn [mbind option_bind same_option]; [| exact I].
    destruct (Det L <? 1); cbn [same_option].
    { apply Hins; assumption. }
    destruct (lk_iterate T c LVL L (Z.to_nat (max_iterations c)) 0 v0)
      as [r|]; cbn [mbind option_bind same_option]; [| exact I].
    destruct (tracked r); cbn [same_option];
      apply Hins; try assumption; congruence.
  - split; [exact Hsame |]. intros Hne. contradiction Hne. reflexivity.
Qed.

(** At the coarsest level the seed uses the slot without reading it. *)
Lemma seed_point_same_coarsest (LVL : nat) (pt : point_t) (st1 st2 : state) :
  Z.of_nat LVL = pyramid_level c ->
  new_p st1 = new_p st2 ->
  length (vectors st1) = length (vectors st2) ->
  seed_point T c LVL pt st1 = seed_point T c LVL pt st2.
Proof.
  intros Hl Hn Hlen. unfold seed_point. rewrite Hl, Z.eqb_refl, <- Hn.
  destruct (input_outside_roi T c (pyramid_old c LVL) pt); [reflexivity |].
  destruct (vectors st1 !! Z.to_nat (new_p st1)) as [a|] eqn:H1;
    destruct (vectors st2 !! Z.to_nat (new_p st1)) as [b|] eqn:H2;
    try reflexivity.
  - apply lookup_lt_Some in H1. apply lookup_ge_None in H2. lia.
  - apply lookup_ge_None in H1. apply lookup_lt_Some in H2. lia.
Qed.

Lemma seed_point_same_slot (LVL : nat) (pt : point_t) (st1 st2 : state) :
  new_p st1 = new_p st2 ->
  vectors st1 !! Z.to_nat (new_p st1) = vectors st2 !! Z.to_nat (new_p st1) ->
  seed_point T c LVL pt st1 = seed_point T c LVL pt st2.
Proof.
  intros Hn Hv. unfold seed_point. rewrite <- Hn, Hv. reflexivity.
Qed.

Lemma point_loop_same_coarsest (LVL : nat) (pts : list point_t) :
  Z.of_nat LVL = pyramid_level c ->
  forall st1 st2 : state,
    same_upto (fun j => Z.of_nat j < new_p st1) st1 st2 ->
    new_p st1 = points_cnt st1 -> 0 <= new_p st1 ->
    new_p st1 + Z.of_nat (length pts) < 2 ^ 16 ->
    same_option
      (fun a b => same_upto (fun j => Z.of_nat j < new_p a) a b
                  /\ new_p a = points_cnt a)
      (point_loop T c LVL pts st1) (point_loop T c LVL pts st2).
Proof.
  intros Hl. induction pts as [|pt rest IH];
    intros st1 st2 Hsame Hsync H0 Hlen; cbn [point_loop].
  - cbn. split; assumption.
  - cbn [length] in Hlen.
    pose proof Hsame as (Hn & _ & Hlen12 & _).
    pose proof (track_point_same _ LVL pt st1 st2 Hsame
                  (seed_point_same_coarsest LVL pt st1 st2 Hl Hn Hlen12))
      as Hstep.
    destruct (track_point T c LVL pt st1) as [a|] eqn:Ha;
      destruct (track_point T c LVL pt st2) as [b|] eqn:Hb;
      cbn [same_option] in Hstep; try contradiction;
      cbn [mbind option_bind]; [| exact I].
    destruct (track_point_counts T c LVL pt st1 a Ha Hsync) as [Hsa Hca].
    assert (Hgrow : points_cnt st1 <= points_cnt a <= points_cnt st1 + 1).
    { destruct Hca as [-> | ->]; [lia |]. rewrite u16_small; lia. }
    apply IH; try lia.
    destruct Hstep as [(Hn' & Hc' & Hl' & Hv') Hslot'].
    repeat split; try assumption.
    intros j Hj. destruct (decide (Z.of_nat j < new_p st1)) as [Hlt | Hge].
    + apply Hv'. exact Hlt.
    + assert (j = Z.to_nat (new_p st1)) by lia. subst j.
      apply Hslot'. lia.
Qed.

Lemma point_loop_same_finer (LVL : nat) (pts : list point_t) (k : nat) :
  forall st1 st2 : state,
    same_upto (fun j => (j < k)%nat) st1 st2 ->
    new_p st1 = points_cnt st1 -> 0 <= new_p st1 ->
    new_p st1 + Z.of_nat (length pts) <= Z.of_nat k ->
    Z.of_nat k < 2 ^ 16 ->
    same_option
      (fun a b => same_upto (fun j => (j < k)%nat) a b
                  /\ new_p a = points_cnt a)
      (point_loop T c LVL pts st1) (point_loop T c LVL pts st2).
Proof.
  induction pts as [|pt rest IH];
    intros st1 st2 Hsame Hsync H0 Hroom Hk; cbn [point_loop].
  - cbn. split; assumption.
  - cbn [length] in Hroom.
    pose proof Hsame as (Hn & _ & _ & Hv).
    pose proof (track_point_same _ LVL pt st1 st2 Hsame
                  (seed_point_same_slot LVL pt st1 st2 Hn
                     (Hv (Z.to_nat (new_p st1)) ltac:(lia)))) as Hstep.
    destruct (track_point T c LVL pt st1) as [a|] eqn:Ha;
      destruct (track_point T c LVL pt st2) as [b|] eqn:Hb;
      cbn [same_option] in Hstep; try contradiction;
      cbn [mbind option_bind]; [| exact I].
    destruct (track_point_counts T c LVL pt st1 a Ha Hsync) as [Hsa Hca].
    assert (Hgrow : points_cnt st1 <= points_cnt a <= points_cnt st1 + 1).
    { destruct Hca as [-> | ->]; [lia |]. rewrite u16_small; lia. }
    apply IH; try lia. apply Hstep.
Qed.

Lemma level_same_coarsest (LVL : nat) (points : list point_t)
      (vs1 vs2 : list flow_t) (cnt : Z) :
  Z.of_nat LVL = pyramid_level c ->
  0 <= max_points c < 2 ^ 16 ->
  length vs1 = length vs2 ->
  same_option same_prefix
    (level T c LVL points vs1 cnt) (level T c LVL points vs2 cnt).
Proof.
  intros Hl Hmax Hlen. unfold level.
  set (pts := take (Z.to_nat (Z.min (max_points c) cnt)) points).
  assert (Hpts : Z.of_nat (length pts) < 2 ^ 16).
  { unfold pts. rewrite length_take. lia. }
  pose proof (point_loop_same_coarsest LVL pts Hl (mk_state vs1 0 0)
                (mk_state vs2 0 0)) as Hloop.
  cbn in Hloop.
  specialize (Hloop ltac:(repeat split; try assumption; intros j Hj; lia)
                    eq_refl ltac:(lia) Hpts).
  destruct (point_loop T c LVL pts (mk_state vs1 0 0)) as [a|];
    destruct (point_loop T c LVL pts (mk_state vs2 0 0)) as [b|];
    cbn [same_option] in Hloop; try contradiction;
    cbn [mbind option_bind same_option]; [| exact I].
  destruct Hloop as [(Hn & Hc & Hl12 & Hv) Hsync].
  repeat split; cbn [fst snd]; try assumption.
  intros j Hj. apply Hv. lia.
Qed.

Lemma level_same_finer (LVL : nat) (points : list point_t)
      (vs1 vs2 : list flow_t) (cnt : Z) :
  0 <= max_points c < 2 ^ 16 ->
  same_prefix (vs1, cnt) (vs2, cnt) ->
  same_option same_prefix
    (level T c LVL points vs1 cnt) (level T c LVL points vs2 cnt).
Proof.
  intros Hmax (_ & Hlen & Hv). cbn [fst snd] in Hlen, Hv. unfold level.
  set (n := Z.to_nat (Z.min (max_points c) cnt)).
  set (pts := take n points).
  assert (Hpts : (length pts <= n)%nat).
  { unfold pts. rewrite length_take. lia. }
  pose proof (point_loop_same_finer LVL pts n (mk_state vs1 0 0)
                (mk_state vs2 0 0)) as Hloop.
  cbn in Hloop.
  specialize (Hloop ltac:(repeat split; try assumption;
                          intros j Hj; apply Hv; lia)
                    eq_refl ltac:(lia) ltac:(lia) ltac:(lia)).
  pose proof (point_loop_counts T c LVL pts (mk_state vs1 0 0)) as Hcounts.
  destruct (point_loop T c LVL pts (mk_state vs1 0 0)) as [a|];
    destruct (point_loop T c LVL pts (mk_state vs2 0 0)) as [b|];
    cbn [same_option] in Hloop; try contradiction;
    cbn [mbind option_bind same_option]; [| exact I].
  destruct Hloop as [(Hn & Hc & Hl12 & Hv') Hsync].
  destruct (Hcounts a eq_refl eq_refl ltac:(cbn; lia) ltac:(cbn; lia))
    as [_ Hb]. cbn in Hb.
  repeat split; cbn [fst snd]; try assumption.
  intros j Hj. apply Hv'. lia.
Qed.

Lemma level_loop_same_finer (LVL : nat) :
  0 <= max_points c < 2 ^ 16 ->
  forall (points : list point_t) (vs1 vs2 : list flow_t) (cnt : Z),
    same_prefix (vs1, cnt) (vs2, cnt) ->
    same_option same_prefix
      (level_loop T c LVL points vs1 cnt) (level_loop T c LVL points vs2 cnt).
Proof.
  intros Hmax. induction LVL as [|l IH]; intros points vs1 vs2 cnt Hsame;
    cbn [level_loop].
  - pose proof (level_same_finer 0 points vs1 vs2 cnt Hmax Hsame) as Hl.
    destruct (level T c 0 points vs1 cnt) as [r1|];
      destruct (level T c 0 points vs2 cnt) as [r2|];
      cbn [same_option] in Hl; try contradiction;
      cbn [mbind option_bind same_option]; [exact Hl | exact I].
  - pose proof (level_same_finer (S l) points vs1 vs2 cnt Hmax Hsame) as Hl.
    destruct (level T c (S l) points vs1 cnt) as [[a1 c1]|];
      destruct (level T c (S l) points vs2 cnt) as [[a2 c2]|];
      cbn [same_option] in Hl; try contradiction;
      cbn [mbind option_bind same_option fst snd]; [| exact I].
    pose proof Hl as (Hc & _ & _). cbn [fst snd] in Hc. subst c2.
    apply IH. exact Hl.
Qed.

(** X16: the call never lets the contents of the freshly allocated array
    reach its result: with two different initial contents it returns the
    same count and the same vectors below the count, or has no result in
    both cases. *)
Theorem result_independent_of_fresh_array
  (points : list point_t) (junk1 junk2 : flow_t)
  (vs1 : list flow_t) (cnt : Z)
  (Hpl : 0 <= pyramid_level c)
  (Hmax : 0 <= max_points c < 2 ^ 16)
  (Hcall : opticFlowLK T c points junk1 = Some (vs1, cnt)) :
  exists vs2,
    opticFlowLK T c points junk2 = Some (vs2, cnt)
    /\ forall j : nat, Z.of_nat j < cnt -> vs1 !! j = vs2 !! j.
Proof.
  unfold opticFlowLK in *.
  destruct (127 <? pyramid_level c); [discriminate |].
  set (LVL := Z.to_nat (pyramid_level c)) in *.
  set (a1 := replicate (Z.to_nat (max_points c)) junk1) in *.
  set (a2 := replicate (Z.to_nat (max_points c)) junk2).
  set (n := Z.of_nat (length points)) in *.
  assert (Hrel : same_option same_prefix
                   (level_loop T c LVL points a1 n)
                   (level_loop T c LVL points a2 n)).
  { pose proof (level_same_coarsest LVL points a1 a2 n
                  ltac:(unfold LVL; lia) Hmax
                  ltac:(unfold a1, a2; rewrite !length_replicate; reflexivity))
      as Hl.
    destruct LVL as [|l]; cbn [level_loop].
    - destruct (level T c 0 points a1 n) as [r1|];
        destruct (level T c 0 points a2 n) as [r2|];
        cbn [same_option] in Hl; try contradiction;
        cbn [mbind option_bind same_option]; [exact Hl | exact I].
    - destruct (level T c (S l) points a1 n) as [[b1 c1]|];
        destruct (level T c (S l) points a2 n) as [[b2 c2]|];
        cbn [same_option] in Hl; try contradiction;
        cbn [mbind option_bind same_option fst snd]; [| exact I].
      pose proof Hl as (Hc & _ & _). cbn [fst snd] in Hc. subst c2.
      apply level_loop_same_finer; assumption. }
  rewrite Hcall in Hrel.
  destruct (level_loop T c LVL points a2 n) as [[vs2 cnt2]|];
    cbn [same_option] in Hrel; [| contradiction].
  destruct Hrel as (Hc & _ & Hv). cbn [fst snd] in Hc, Hv. subst cnt2.
  exists vs2. split; [reflexivity | exact Hv].
Qed.

(** X7: a level neither writes nor reads the slots from index
    [min(max_points, count handed over)] on: they come out of the level
    as they went in, and with other contents in these slots the level
    returns the same count and the same vectors below that index (or
    has no result in both cases). *)
Theorem level_leaves_inactive_slots
  (LVL : nat) (points : list point_t) (vs1 vs2 vs1' : list flow_t)
  (cnt cnt' : Z)
  (Hmax : 0 <= max_points c < 2 ^ 16)
  (Hlen : length vs1 = length vs2)
  (Hactive : forall j : nat,
      Z.of_nat j < Z.min (max_points c) cnt -> vs1 !! j = vs2 !! j)
  (Hlevel : level T c LVL points vs1 cnt = Some (vs1', cnt')) :
  (forall j : nat,
      Z.min (max_points c) cnt <= Z.of_nat j -> vs1' !! j = vs1 !! j)
  /\ exists vs2',
      level T c LVL points vs2 cnt = Some (vs2', cnt')
      /\ (forall j : nat,
             Z.of_nat j < Z.min (max_points c) cnt -> vs1' !! j = vs2' !! j)
      /\ (forall j : nat,
             Z.min (max_points c) cnt <= Z.of_nat j -> vs2' !! j = vs2 !! j).
Proof.
  unfold level in *.
  set (n := Z.to_nat (Z.min (max_points c) cnt)) in *.
  set (pts := take n points) in *.
  assert (Hpts : (length pts <= n)%nat).
  { unfold pts. rewrite length_take. lia. }
  pose proof (point_loop_same_finer LVL pts n (mk_state vs1 0 0)
                (mk_state vs2 0 0)) as Hsame.
  cbn in Hsame.
  specialize (Hsame ltac:(repeat split; try assumption;
                          intros j Hj; apply Hactive; lia)
                    eq_refl ltac:(lia) ltac:(lia) ltac:(lia)).
  destruct (point_loop T c LVL pts (mk_state vs1 0 0)) as [a|] eqn:Ha;
    cbn [mbind option_bind] in Hlevel; [| discriminate].
  injection Hlevel as <- <-.
  destruct (point_loop T c LVL pts (mk_state vs2 0 0)) as [b|] eqn:Hb;
    cbn [same_option] in Hsame; [| contradiction].
  destruct Hsame as [(Hn & Hc & _ & Hv) _].
  split.
  - intros j Hj.
    apply (point_loop_untouched T c LVL pts _ _ Ha); cbn; lia.
  - exists (vectors b). cbn [mbind option_bind]. rewrite Hc.
    split; [reflexivity |]. split.
    + intros j Hj. apply Hv. lia.
    + intros j Hj.
      apply (point_loop_untouched T c LVL pts _ _ Hb); cbn; lia.
Qed.

End Allocation.

(** ** Worked examples for the further properties *)

(** The list of processed points is evaluated first, then the test on
    each closed point. *)
Ltac evaluate_points :=
  match goal with
  | |- Exists ?P ?l => let l' := eval vm_compute in l in change (Exists P l')
  | |- Forall ?P ?l => let l' := eval vm_compute in l in change (Forall P l')
  end.

Ltac some_point_passes :=
  evaluate_points; apply Exists_cons_hd; vm_compute; reflexivity.

Ltac all_points_fail :=
  evaluate_points;
  repeat (constructor; [vm_compute; reflexivity |]);
  constructor.

(** X1 on the call of [call_jump] with the point (95, 50). *)
Lemma returned_count_within_array_witness :
  length [mk_flow (mk_point 950 500) 60 60] = Z.to_nat 1
  /\ 0 <= 1 <= Z.min 1 (Z.of_nat (length [mk_point 95 50]))
  /\ forall j : nat,
      Z.of_nat j < 1 ->
      exists v, [mk_flow (mk_point 950 500) 60 60] !! j = Some v.
Proof.
  exact (returned_count_within_array T16 call_jump [mk_point 95 50] zero_flow
           [mk_flow (mk_point 950 500) 60 60] 1
           ltac:(by_evaluation) ltac:(by_evaluation)).
Defined.

(** X2 on a call with two pyramid levels above level 0. *)
Lemma call_defined_for_nonzero_factor_witness :
  exists (vs : list flow_t) (cnt : Z),
    opticFlowLK T16 call_still [mk_point 20 20; mk_point 2 10] zero_flow
    = Some (vs, cnt).
Proof.
  exact (call_defined_for_nonzero_factor T16 call_still
           [mk_point 20 20; mk_point 2 10] zero_flow
           ltac:(by_evaluation) ltac:(by_evaluation) ltac:(by_evaluation)).
Defined.

(** X3 on the point (50, 50) of a 100 x 100 frame. *)
Lemma zero_subpixel_factor_divides_by_zero_witness :
  (exists v0,
      seed_point T16 call_zero_factor 0 (mk_point 50 50)
        (mk_state [zero_flow] 0 0) = Some (Some v0)
      /\ linearize call_zero_factor 0 v0 = None
      /\ track_point T16 call_zero_factor 0 (mk_point 50 50)
           (mk_state [zero_flow] 0 0) = None)
  /\ opticFlowLK T16 call_zero_factor [mk_point 50 50] zero_flow = None.
Proof.
  destruct (zero_subpixel_factor_divides_by_zero T16 call_zero_factor
              [mk_point 50 50] zero_flow
              ltac:(by_evaluation) ltac:(by_evaluation) ltac:(by_evaluation)
              ltac:(some_point_passes)) as (_ & Hpoint & Hcall).
  split; [| exact Hcall].
  exact (Hpoint (mk_point 50 50) (mk_state [zero_flow] 0 0) zero_flow
           eq_refl ltac:(by_evaluation)).
Defined.

(** X4 on a point two pixels from the left edge. *)
Lemma no_point_inside_returns_zero_witness :
  opticFlowLK T16 call_still [mk_point 2 10] zero_flow
  = Some (replicate (Z.to_nat 10) zero_flow, 0).
Proof.
  exact (no_point_inside_returns_zero T16 call_still [mk_point 2 10] zero_flow
           ltac:(by_evaluation) ltac:(by_evaluation) ltac:(all_points_fail)).
Defined.

(** X5 with [max_points = 1] and two points. *)
Lemma only_first_max_points_processed_witness :
  opticFlowLK T16 call_jump [mk_point 95 50; mk_point 50 50] zero_flow
  = opticFlowLK T16 call_jump
      (take (Z.to_nat 1) [mk_point 95 50; mk_point 50 50]) zero_flow.
Proof.
  exact (only_first_max_points_processed T16 call_jump
           [mk_point 95 50; mk_point 50 50] zero_flow ltac:(by_evaluation)).
Defined.

(** X6 on a point that moves by (60, 60) subpixels. *)
Lemma tracked_vector_keeps_seed_position_witness :
  exists v,
    [mk_flow (mk_point 950 500) 60 60] !! Z.to_nat 0 = Some v
    /\ pos v = pos (mk_flow (mk_point 950 500) 0 0).
Proof.
  exact (tracked_vector_keeps_seed_position T16 call_jump 0 (mk_point 95 50)
           (mk_state [zero_flow] 0 0)
           (mk_state [mk_flow (mk_point 950 500) 60 60] 1 1)
           (mk_flow (mk_point 950 500) 0 0)
           ltac:(by_evaluation) ltac:(by_evaluation)).
Defined.

(** X7 on level 0 of [call_flat_spot] with two survivors handed over and
    two more slots in the array, filled in two different ways. *)
Lemma level_leaves_inactive_slots_witness :
  (forall j : nat,
      Z.min 10 2 <= Z.of_nat j ->
      [mk_flow (mk_point 400 400) 0 0; estimate_b; estimate_b; zero_flow] !! j
      = [estimate_a; estimate_b; estimate_b; zero_flow] !! j)
  /\ exists vs2',
      level T16 call_flat_spot 0 points_ab
        [estimate_a; estimate_b; zero_flow; estimate_a] 2 = Some (vs2', 1)
      /\ (forall j : nat,
             Z.of_nat j < Z.min 10 2 ->
             [mk_flow (mk_point 400 400) 0 0; estimate_b; estimate_b;
              zero_flow] !! j = vs2' !! j)
      /\ (forall j : nat,
             Z.min 10 2 <= Z.of_nat j ->
             vs2' !! j = [estimate_a; estimate_b; zero_flow; estimate_a] !! j).
Proof.
  apply (level_leaves_inactive_slots T16 call_flat_spot 0 points_ab
           [estimate_a; estimate_b; estimate_b; zero_flow]
           [estimate_a; estimate_b; zero_flow; estimate_a]
           [mk_flow (mk_point 400 400) 0 0; estimate_b; estimate_b; zero_flow]
           2 1).
  - by_evaluation.
  - reflexivity.
  - intros j Hj. change (Z.of_nat j < 2) in Hj.
    destruct j as [|[|j]]; [reflexivity | reflexivity | lia].
  - by_evaluation.
Defined.

(** X8 on the call of [call_flat_spot] (one level above level 0). *)
Lemma returned_positions_are_even_witness :
  exists v,
    (mk_flow (mk_point 400 400) 0 0 :: estimate_b :: replicate 8 zero_flow)
      !! 0%nat = Some v
    /\ Z.even (p_x (pos v)) = true /\ Z.even (p_y (pos v)) = true.
Proof.
  exact (returned_positions_are_even T16 call_flat_spot points_ab zero_flow
           (mk_flow (mk_point 400 400) 0 0 :: estimate_b
              :: replicate 8 zero_flow) 1
           ltac:(by_evaluation) ltac:(by_evaluation) ltac:(by_evaluation)
           0%nat ltac:(by_evaluation)).
Defined.

(** X9 on the single-level call of [call_jump]. *)
Lemma single_level_positions_come_from_input_witness :
  exists v pt,
    [mk_flow (mk_point 950 500) 60 60] !! 0%nat = Some v
    /\ pt ∈ take (Z.to_nat 1) [mk_point 95 50]
    /\ input_outside_roi T16 call_jump (pyramid_old call_jump 0) pt = false
    /\ pos v = mk_point (ucoord T16 (u32 (p_x pt * 10)))
                        (ucoord T16 (u32 (p_y pt * 10))).
Proof.
  exact (single_level_positions_come_from_input T16 call_jump
           [mk_point 95 50] zero_flow [mk_flow (mk_point 950 500) 60 60] 1
           ltac:(by_evaluation) ltac:(by_evaluation) ltac:(by_evaluation)
           0%nat ltac:(by_evaluation)).
Defined.

(** X10 on the flat window of [lib_flat_spot]: G = 0. *)
Lemma degeneracy_test_within_range_witness :
  Det lin_flat = Z.quot (0 * 0 - 0 * 0) 10
  /\ (Det lin_flat < 1 <-> 0 * 0 - 0 * 0 < 10)
  /\ (0 * 0 - 0 * 0 < 10 ->
      track_point T16 call_flat_spot 0 (mk_point 20 20)
        (mk_state [estimate_a; estimate_b] 0 0)
      = Some (mk_state
                (<[Z.to_nat 0 := mk_flow (mk_point 200 200) 0 0]>
                   [estimate_a; estimate_b]) 0 0)).
Proof.
  exact (degeneracy_test_within_range T16 call_flat_spot 0 (mk_point 20 20)
           (mk_state [estimate_a; estimate_b] 0 0)
           (mk_flow (mk_point 200 200) 0 0) lin_flat 0 0 0 0
           ltac:(by_evaluation) ltac:(by_evaluation) ltac:(by_evaluation)
           ltac:(by_evaluation) ltac:(by_evaluation) ltac:(by_evaluation)).
Defined.

(** X11 on a drifting ramp with [max_iterations = 10]: the rejection
    comes in the seventh pass. *)
Lemma residual_rejection_is_late_witness :
  10 / 2 + 2 <= Z.of_nat 7 /\ 3 <= 10.
Proof.
  exact (residual_rejection_is_late T16 call_drift 0 lin_drift
           (mk_flow (mk_point 500 500) 0 0)
           (mk_refine false (mk_flow (mk_point 500 500) 360 360) 7
              (Rejected HighResidual))
           ltac:(by_evaluation) ltac:(by_evaluation)).
Defined.

(** X12 on the point (10, 10) at depth 2 with [half_window_size = 5]. *)
Lemma points_near_origin_never_counted_witness :
  exists st',
    track_point T16 call_still (Z.to_nat 2) (mk_point 10 10)
      (mk_state [zero_flow] 0 0) = Some st'
    /\ new_p st' = 0 /\ points_cnt st' = 0.
Proof.
  exact (points_near_origin_never_counted T16 call_still (mk_point 10 10)
           (mk_state [zero_flow] 0 0) zero_flow
           ltac:(by_evaluation) ltac:(by_evaluation) ltac:(by_evaluation)
           ltac:(by_evaluation) ltac:(by_evaluation)
           ltac:(left; by_evaluation) ltac:(by_evaluation)).
Defined.

(** X13 for [half_window_size = 5]: windows of 11 and 13 pixels. *)
Lemma window_sizes_are_odd_witness :
  patch_size call_still = 2 * 5 + 1 /\ padded_patch_size call_still = 2 * 5 + 3.
Proof.
  destruct (window_sizes_are_odd call_still) as (_ & _ & Hsmall).
  apply Hsmall. by_evaluation.
Defined.

(** X14 on identical frames. *)
Lemma zero_mismatch_converges_at_once_witness :
  lk_step T16 call_still 0 lin_textured 0 (mk_flow (mk_point 500 500) 0 0)
  = Some (IterStep (mk_flow (mk_point 500 500) 0 0) 0 0)
  /\ lk_iterate T16 call_still 0 lin_textured 10 0
       (mk_flow (mk_point 500 500) 0 0)
     = Some (mk_refine true (mk_flow (mk_point 500 500) 0 0) 1 Converged).
Proof.
  exact (zero_mismatch_converges_at_once T16 call_still 0 lin_textured 9 0
           (mk_flow (mk_point 500 500) 0 0)
           ltac:(by_evaluation) ltac:(by_evaluation) ltac:(by_evaluation)
           ltac:(by_evaluation) ltac:(by_evaluation) ltac:(by_evaluation)
           ltac:(by_evaluation) ltac:(by_evaluation)).
Defined.

(** X15 at [pyramid_level = 8] on 2560 x 2560 frames. *)
Lemma deep_pyramid_divides_by_zero_witness :
  exp call_deep = 0
  /\ seed_point T16 call_deep 8 (mk_point 5 5) (mk_state [zero_flow] 0 0)
     = None
  /\ opticFlowLK T16 call_deep [mk_point 5 5] zero_flow = None.
Proof.
  destruct (deep_pyramid_divides_by_zero T16 call_deep [mk_point 5 5]
              zero_flow ltac:(by_evaluation) ltac:(by_evaluation)
              ltac:(some_point_passes)) as (He & _ & Hseed & Hcall).
  split; [exact He |]. split; [| exact Hcall].
  exact (Hseed (mk_point 5 5) (mk_state [zero_flow] 0 0) zero_flow
           eq_refl ltac:(by_evaluation)).
Defined.

(** X16 on the call of [call_jump], with the array first filled with
    zero vectors and then with [estimate_a]. *)
Lemma result_independent_of_fresh_array_witness :
  exists vs2,
    opticFlowLK T16 call_jump [mk_point 95 50] estimate_a = Some (vs2, 1)
    /\ forall j : nat,
        Z.of_nat j < 1 ->
        [mk_flow (mk_point 950 500) 60 60] !! j = vs2 !! j.
Proof.
  exact (result_independent_of_fresh_array T16 call_jump [mk_point 95 50]
           zero_flow estimate_a [mk_flow (mk_point 950 500) 60 60] 1
           ltac:(by_evaluation) ltac:(by_evaluation) ltac:(by_evaluation)).
Defined.
